(** * Simulator_Trading.py: price process, candle aggregation, chart window
      and trade bookkeeping of [TradingSimulatorTk]

    Shallow embedding of the business logic of [src/Simulator_Trading.py].

    Modelling conventions.
    - Python [float] values are rationals [Q].  The price process, the
      candle aggregation and the trade methods [_buy_eth] and [_sell_eth]
      are modelled in exact arithmetic first; equalities between computed
      numbers are stated with [==] ([Qeq]).
    - Binary64 rounding is an operator [fl : Q -> Q] applied to the result
      of every float operation and to the decimal literals.  The chart
      window ([price_bounds], [compute_window], [yfrom_fl]), the drawing
      code and the trade methods [_buy_eth_fl] and [_sell_eth_fl] take it as
      a parameter; the class [Rounding] lists the properties of
      round-to-nearest that the proofs use.  [fl] has no largest value and
      the model has no [nan] or [inf]: statements about runs of trades
      assume that the balances stay in the range of doubles.
    - Concrete scenarios are run on binary64 doubles themselves
      ([Binary64], on the primitive floats).
    - Python [int] values ([chart_w], [chart_h], candle geometry) are [Z];
      [//] is [Z.div] (both round towards minus infinity).
    - [round(x, 2)] is round-half-to-even at two decimals, on the exact value.
    - [max(a, b)] / [min(a, b)] return [b] only when [b > a] / [b < a]; this
      is exactly [Qmax] / [Qmin] of the standard library.
    - The [random] module is modelled by passing every draw explicitly:
      [random.random()] results for [uniform], standard normal variates for
      [gauss].
    - [self] is the record [Sim]; methods are state transformers.  Tk widgets
      and the formatting of labels carry no business state and are left
      out; canvas calls are collected as a list of [Primitive]s, message
      boxes are returned as a list of [Report]s. *)

From Stdlib Require Import Bool String.
From Stdlib Require Import ZArith QArith Qminmax Qround Qabs.
From Stdlib Require Import List Lia Lqa PrimFloat.
Import ListNotations.

Set Warnings "-inexact-float".

Open Scope Q_scope.

(** ** Numbers as Python computes them *)

Module PyNum.

(** Nearest integer, ties to the even neighbour. *)
Definition round_half_even (t : Q) : Z :=
  let f := Qfloor t in
  match Qcompare (t - inject_Z f) (1 # 2) with
  | Lt => f
  | Gt => (f + 1)%Z
  | Eq => if Z.even f then f else (f + 1)%Z
  end.

(** [round(x, ndigits)] for a float [x] and [ndigits >= 0]. *)
Definition round (x : Q) (ndigits : nat) : Q :=
  let m := Z.to_pos (10 ^ Z.of_nat ndigits) in
  round_half_even (x * inject_Z (Z.pos m)) # m.

(** [random.uniform(a, b)] is [a + (b - a) * random()], [random()] in [0, 1). *)
Definition uniform (a b r : Q) : Q := a + (b - a) * r.

(** [random.gauss(mu, sigma)] is [mu + z * sigma], [z] standard normal. *)
Definition gauss (mu sigma z : Q) : Q := mu + z * sigma.

(** The range of [random.random()]. *)
Definition unit_draw (r : Q) : Prop := 0 <= r /\ r < 1.

(** A value with at most two decimals, as [round(_, 2)] produces. *)
Definition cents (q : Q) : Prop := round q 2 == q.

(** [l[start:]] for an arbitrary integer [start]. *)
Definition slice_from {A : Type} (start : Z) (l : list A) : list A :=
  let len := Z.of_nat (length l) in
  let i := if (start <? 0)%Z then Z.max 0 (start + len) else Z.min start len in
  skipn (Z.to_nat i) l.

(** [max(xs)] / [min(xs)] over a sequence; [None] is the [ValueError] of an
    empty argument.  The first extremal element is kept. *)
Definition max_of (xs : list Q) : option Q :=
  match xs with
  | [] => None
  | x :: tl => Some (fold_left Qmax tl x)
  end.

Definition min_of (xs : list Q) : option Q :=
  match xs with
  | [] => None
  | x :: tl => Some (fold_left Qmin tl x)
  end.

End PyNum.
Import PyNum.

(** ** The simulator state and its class constants *)

(** Class constants of [TradingSimulatorTk]. *)
Definition WIDTH : Z := 1550.
Definition HEIGHT : Z := 800.
Definition INITIAL_USD : Q := 10000.
Definition INITIAL_ETH : Q := 0.
Definition CHART_LEFT_PAD : Z := 60.
Definition CHART_RIGHT_PAD : Z := 40.
Definition CHART_TOP_PAD : Z := 80.
Definition CHART_BOTTOM_PAD : Z := 160.
Definition CANDLE_WIDTH : Z := 12.
Definition CANDLE_GAP : Z := 4.
Definition DRIFT : Q := 0.
Definition VOLATILITY : Q := 0.006.

(** The two fill colours of a candle: green for a rising bar, red otherwise. *)
Definition GREEN : string := "#22c55e".
Definition RED : string := "#ef4444".

(** One entry of [self.candles]: the dict [{open, high, low, close, color}]. *)
Record Candle : Type := mkCandle {
  open : Q;
  high : Q;
  low : Q;
  close : Q;
  color : string
}.

(** The attributes of [self] that the business logic reads or writes. *)
Record Sim : Type := mkSim {
  balance_usd : Q;
  balance_eth : Q;
  current_price : Q;
  prev_price : option Q;      (* set by the first [_simulate_next_price] *)
  candles : list Candle       (* chronological, appended at the end *)
}.

(** The draws consumed by one call of [_append_new_candle], in source order:
    [random.uniform] (first candle only), then the two [random.gauss]. *)
Record CandleDraws : Type := mkDraws {
  r_open : Q;      (* [random()] behind [uniform(-0.001, 0.001)] *)
  z_high : Q;      (* variate behind [gauss(0, 0.0015)] of the high *)
  z_low : Q        (* variate behind [gauss(0, 0.0015)] of the low *)
}.

(** ** Price process and candle aggregation *)

(** [_simulate_next_price]: random-walk step, floored at 1.0, kept in cents. *)
Definition _simulate_next_price (z : Q) (s : Sim) : Sim :=
  let pct_change := gauss DRIFT VOLATILITY z in
  let new_price := Qmax 1 (current_price s * (1 + pct_change)) in
  {| balance_usd := balance_usd s;
     balance_eth := balance_eth s;
     current_price := round new_price 2;
     prev_price := Some (current_price s);
     candles := candles s |}.

(** The open of the next bar: jittered price for the first bar, otherwise the
    close of [self.candles[-1]]. *)
Definition next_open (initial : bool) (r : Q) (s : Sim) : Q :=
  match initial, rev (candles s) with
  | false, k :: _ => close k
  | _, _ => current_price s * (1 + uniform (-0.001) 0.001 r)
  end.

(** The dict built by [_append_new_candle] from the raw open [o], close [c]
    and the two wick draws. *)
Definition make_candle (o c zh zl : Q) : Candle :=
  let high := Qmax o c * (1 + Qabs (gauss 0 0.0015 zh)) in
  let low := Qmin o c * (1 - Qabs (gauss 0 0.0015 zl)) in
  let color := if Qle_bool o c then GREEN else RED in
  {| open := round o 2;
     high := round high 2;
     low := round low 2;
     close := round c 2;
     color := color |}.

(** [_append_new_candle(initial)]. *)
Definition _append_new_candle (initial : bool) (d : CandleDraws) (s : Sim) : Sim :=
  let o := next_open initial (r_open d) s in
  let c := current_price s in
  {| balance_usd := balance_usd s;
     balance_eth := balance_eth s;
     current_price := current_price s;
     prev_price := prev_price s;
     candles := candles s ++ [make_candle o c (z_high d) (z_low d)] |}.

(** [_tick]: new price, then new candle (redraw and labels hold no state). *)
Definition _tick (z : Q) (d : CandleDraws) (s : Sim) : Sim :=
  _append_new_candle false d (_simulate_next_price z s).

(** The fields assigned at the top of [__init__]. *)
Definition fresh : Sim :=
  {| balance_usd := INITIAL_USD;
     balance_eth := INITIAL_ETH;
     current_price := 3500;
     prev_price := None;
     candles := [] |}.

(** [__init__]: the first candle, then [_schedule_update] runs one [_tick]
    at once. *)
Definition __init__ (d0 : CandleDraws) (z1 : Q) (d1 : CandleDraws) : Sim :=
  _tick z1 d1 (_append_new_candle true d0 fresh).

(** ** Chart window and vertical scale ([_build_chart], [_draw_chart]) *)

(** Failures the interpreter would raise in the modelled code. *)
Inductive PyError : Type :=
| ZeroDivisionError
| ValueError.

Inductive Result (A : Type) : Type :=
| Ok (a : A)
| Raise (e : PyError).
Arguments Ok {A} a.
Arguments Raise {A} e.

Definition bind {A B : Type} (r : Result A) (k : A -> Result B) : Result B :=
  match r with
  | Ok a => k a
  | Raise e => Raise e
  end.

Notation "x <- r ;; k" := (bind r (fun x => k))
  (at level 61, r at next level, right associativity).

(** [a // b] on integers. *)
Definition floordiv (a b : Z) : Result Z :=
  if (b =? 0)%Z then Raise ZeroDivisionError else Ok (a / b)%Z.

(** [a / b] on floats. *)
Definition truediv (a b : Q) : Result Q :=
  if Qeq_bool b 0 then Raise ZeroDivisionError else Ok (a / b).

Definition of_option {A : Type} (o : option A) (e : PyError) : Result A :=
  match o with
  | Some a => Ok a
  | None => Raise e
  end.

(** Canvas size computed by [_build_chart]. *)
Definition chart_w : Z := WIDTH - CHART_LEFT_PAD - CHART_RIGHT_PAD.
Definition chart_h : Z := HEIGHT - CHART_TOP_PAD - CHART_BOTTOM_PAD.

(** Horizontal pitch of one candle. *)
Definition step : Z := CANDLE_WIDTH + CANDLE_GAP.

(** [max_candles = max(1, chart_w // step)]. *)
Definition max_candles (chart_w step : Z) : Result Z :=
  n <- floordiv chart_w step ;; Ok (Z.max 1 n).

(** [data = self.candles[-max_candles:]]. *)
Definition visible (chart_w step : Z) (history : list Candle) : Result (list Candle) :=
  n <- max_candles chart_w step ;; Ok (slice_from (- n) history).

(** What [_draw_chart] derives before drawing: the visible bars and the
    price bounds of the vertical scale. *)
Record ViewWindow : Type := mkWindow {
  data : list Candle;
  top_price : Q;
  bot_price : Q
}.

(** Bounds of the vertical scale for the bars in [data].  [fl] rounds the
    result of every float operation and every decimal literal to a double;
    the literal [1.0] and the comparisons of [max] and [min] are exact. *)
Definition price_bounds (fl : Q -> Q) (data : list Candle) : Result (Q * Q) :=
  all_high <- of_option (max_of (map high data)) ValueError ;;
  all_low <- of_option (min_of (map low data)) ValueError ;;
  let padding := Qmax 1 (fl (fl (all_high - all_low) * fl 0.10)) in
  let top_price := fl (all_high + padding) in
  let bot_price := Qmax (fl 0.1) (fl (all_low - padding)) in
  Ok (top_price, bot_price).

(** The window part of [_draw_chart]; [Ok None] is the early [return] taken
    when there is no candle yet. *)
Definition compute_window (fl : Q -> Q) (chart_w step : Z) (history : list Candle)
  : Result (option ViewWindow) :=
  match history with
  | [] => Ok None
  | _ :: _ =>
      data <- visible chart_w step history ;;
      b <- price_bounds fl data ;;
      Ok (Some {| data := data; top_price := fst b; bot_price := snd b |})
  end.

(** The local function [yfrom] of [_draw_chart], closed over [chart_h],
    [top_price] and [bot_price], in exact arithmetic. *)
Definition yfrom (chart_h : Z) (top_price bot_price : Q) (price : Q) : Result Q :=
  norm <- truediv (price - bot_price) (top_price - bot_price) ;;
  Ok (inject_Z chart_h - norm * inject_Z chart_h).

(** [yfrom] with the result of every float operation rounded by [fl]. *)
Definition yfrom_fl (fl : Q -> Q) (chart_h : Z) (top_price bot_price : Q) (price : Q)
  : Result Q :=
  let num := fl (price - bot_price) in
  let den := fl (top_price - bot_price) in
  if Qeq_bool den 0 then Raise ZeroDivisionError
  else
    let norm := fl (num / den) in
    Ok (fl (inject_Z chart_h - fl (norm * inject_Z chart_h))).

(** ** Trading ([_parse_qty], [_buy_eth], [_sell_eth]) *)

(** What the user is told: the two message boxes and the order label. *)
Inductive Report : Type :=
| InvalidQuantity       (* [messagebox.showerror], title "Quantidade invalida" *)
| InsufficientBalance   (* [messagebox.showwarning], title "Saldo insuficiente" *)
| OrderFilled.          (* [order_msg_var.set] *)

(** [_parse_qty].  [entry] is the outcome of [float(self.qty_var.get())]:
    [None] when the text is not a number and [float] raises.  The texts nan
    and inf, which [float] accepts, give no rational; [Binary64] has them. *)
Definition _parse_qty (entry : option Q) : Q * list Report :=
  match entry with
  | Some q => if Qle_bool q 0 then (0, [InvalidQuantity]) else (q, [])
  | None => (0, [InvalidQuantity])
  end.

(** The tolerances [1e-9] and [1e-12] added to the balance in the guards of
    [_buy_eth] and [_sell_eth]. *)
Definition eps_usd : Q := 1 # 1000000000.
Definition eps_eth : Q := 1 # 1000000000000.

(** [a > b] on floats. *)
Definition Qgt_bool (a b : Q) : bool := negb (Qle_bool a b).

(** [_buy_eth]. *)
Definition _buy_eth (entry : option Q) (s : Sim) : Sim * list Report :=
  let (qty, shown) := _parse_qty entry in
  if Qle_bool qty 0 then (s, shown)
  else
    let cost := qty * current_price s in
    if Qgt_bool cost (balance_usd s + eps_usd) then (s, shown ++ [InsufficientBalance])
    else
      ({| balance_usd := balance_usd s - cost;
          balance_eth := balance_eth s + qty;
          current_price := current_price s;
          prev_price := prev_price s;
          candles := candles s |},
       shown ++ [OrderFilled]).

(** [_sell_eth]. *)
Definition _sell_eth (entry : option Q) (s : Sim) : Sim * list Report :=
  let (qty, shown) := _parse_qty entry in
  if Qle_bool qty 0 then (s, shown)
  else if Qgt_bool qty (balance_eth s + eps_eth) then (s, shown ++ [InsufficientBalance])
  else
    let proceeds := qty * current_price s in
    ({| balance_usd := balance_usd s + proceeds;
        balance_eth := balance_eth s - qty;
        current_price := current_price s;
        prev_price := prev_price s;
        candles := candles s |},
     shown ++ [OrderFilled]).

(** *** The two trade methods with binary64 rounding

    [fl] rounds the result of every float operation and the two decimal
    literals to a double; the comparisons are exact.  With [fl] the
    identity these are [_buy_eth] and [_sell_eth]. *)

Definition _buy_eth_fl (fl : Q -> Q) (entry : option Q) (s : Sim) : Sim * list Report :=
  let (qty, shown) := _parse_qty entry in
  if Qle_bool qty 0 then (s, shown)
  else
    let cost := fl (qty * current_price s) in
    if Qgt_bool cost (fl (balance_usd s + fl eps_usd))
    then (s, shown ++ [InsufficientBalance])
    else
      ({| balance_usd := fl (balance_usd s - cost);
          balance_eth := fl (balance_eth s + qty);
          current_price := current_price s;
          prev_price := prev_price s;
          candles := candles s |},
       shown ++ [OrderFilled]).

Definition _sell_eth_fl (fl : Q -> Q) (entry : option Q) (s : Sim) : Sim * list Report :=
  let (qty, shown) := _parse_qty entry in
  if Qle_bool qty 0 then (s, shown)
  else if Qgt_bool qty (fl (balance_eth s + fl eps_eth))
  then (s, shown ++ [InsufficientBalance])
  else
    let proceeds := fl (qty * current_price s) in
    ({| balance_usd := fl (balance_usd s + proceeds);
        balance_eth := fl (balance_eth s - qty);
        current_price := current_price s;
        prev_price := prev_price s;
        candles := candles s |},
     shown ++ [OrderFilled]).

(** What can happen to the account, seen from the balances: a tick puts a
    new price in [current_price] (the candle it appends plays no part in
    trading and is left out), or the user presses a trade button. *)
Inductive Action : Type :=
| NewPrice (p : Q)
| BuyOrder (entry : option Q)
| SellOrder (entry : option Q).

Definition act (fl : Q -> Q) (s : Sim) (a : Action) : Sim :=
  match a with
  | NewPrice p =>
      {| balance_usd := balance_usd s;
         balance_eth := balance_eth s;
         current_price := p;
         prev_price := Some (current_price s);
         candles := candles s |}
  | BuyOrder entry => fst (_buy_eth_fl fl entry s)
  | SellOrder entry => fst (_sell_eth_fl fl entry s)
  end.

(** Equity shown by [_refresh_info_labels]. *)
Definition equity_usd (s : Sim) : Q := balance_usd s + balance_eth s * current_price s.

(** ** The event loop *)

(** What can happen after [__init__]: the timer fires, or the user presses
    one of the two trade buttons with some text in the quantity field. *)
Inductive Event : Type :=
| Tick (z : Q) (d : CandleDraws)
| Buy (entry : option Q)
| Sell (entry : option Q).

Definition handle (s : Sim) (e : Event) : Sim :=
  match e with
  | Tick z d => _tick z d s
  | Buy entry => fst (_buy_eth entry s)
  | Sell entry => fst (_sell_eth entry s)
  end.

(** The state after the constructor and a sequence of events. *)
Definition run (d0 : CandleDraws) (z1 : Q) (d1 : CandleDraws) (evs : list Event) : Sim :=
  fold_left handle evs (__init__ d0 z1 d1).

(** ** Properties under verification, as the specification words them *)

(** The candle invariant: the wicks enclose the body. *)
Definition candle_invariant (c : Candle) : Prop :=
  low c <= Qmin (open c) (close c) /\ Qmax (open c) (close c) <= high c.

(** Clamping of the wicks to the body bounds, as the specification asks
    for after rounding. *)
Definition clamp_to_body (c : Candle) : Candle :=
  {| open := open c;
     high := Qmax (high c) (Qmax (open c) (close c));
     low := Qmin (low c) (Qmin (open c) (close c));
     close := close c;
     color := color c |}.

(** A candle of the data model: positive open and close, wicks around. *)
Definition well_formed (c : Candle) : Prop :=
  0 < open c /\ 0 < close c /\ candle_invariant c.

(** [PriceProcess.advance] of the specification. *)
Definition advance (p pct_change : Q) : Q :=
  round (Qmax 1 (p * (1 + pct_change))) 2.

(** The direction tag derived from the stored fields: up when close >= open. *)
Definition direction (c : Candle) : string :=
  if Qle_bool (open c) (close c) then GREEN else RED.

(** The tag agrees with the comparison of the stored open and close. *)
Definition tag_consistent (c : Candle) : Prop := color c = direction c.

(** The last [k] elements of a sequence, oldest first. *)
Definition last_n {A : Type} (k : nat) (l : list A) : list A :=
  skipn (List.length l - k) l.

(** [min(max(1, floor(pixelWidth / step)), len(history))]. *)
Definition window_size (pixelWidth candleStepPx : Z) (len : nat) : nat :=
  Z.to_nat (Z.min (Z.max 1 (pixelWidth / candleStepPx)) (Z.of_nat len)).

(** A trade went through when the order label was set. *)
Definition filled (r : Sim * list Report) : Prop := In OrderFilled (snd r).

(** What is known of every state the program reaches. *)
Definition price_ok (p : Q) : Prop := 1 <= p /\ cents p.

Definition stored_ok (c : Candle) : Prop :=
  well_formed c /\ price_ok (close c) /\ cents (open c).

Definition sim_ok (s : Sim) : Prop :=
  price_ok (current_price s) /\ candles s <> [] /\ Forall stored_ok (candles s).

(** The tag never contradicts the stored fields outright: an up bar does
    not close below its open, a down bar does not close above it. *)
Definition tag_sound (c : Candle) : Prop :=
  (color c = GREEN \/ color c = RED) /\
  (color c = GREEN -> open c <= close c) /\
  (color c = RED -> close c <= open c).

(** What is known of the tags in every state the program reaches: every bar
    after the first one is tagged as its stored fields compare. *)
Definition sim_tags (s : Sim) : Prop :=
  cents (current_price s) /\
  Forall (fun c => cents (close c) /\ tag_sound c) (candles s) /\
  exists first later, candles s = first :: later /\ Forall tag_consistent later.

(** ** Binary64 rounding, as far as the proofs need it

    [fl x] stands for the double nearest to [x], with the exponent left
    unbounded.  The class lists the properties of round-to-nearest that the
    proofs use: rounding respects equality, is monotone, leaves a double as
    it is, moves a value no further than the distance to any double, keeps
    the integers up to 2^53, and the doubles are closed under negation and
    doubling.  Binary64 has these properties as long as no result exceeds
    [max_double]; exact arithmetic ([fl] the identity) and rounding to the
    nearest integer have them too. *)

(** A value that rounding leaves as it is. *)
Definition is_float (fl : Q -> Q) (x : Q) : Prop := fl x == x.

Class Rounding (fl : Q -> Q) : Prop := {
  fl_comp : forall x y, x == y -> fl x == fl y;
  fl_mono : forall x y, x <= y -> fl x <= fl y;
  fl_idem : forall x, is_float fl (fl x);
  fl_nearest : forall x f, is_float fl f -> Qabs (fl x - x) <= Qabs (f - x);
  fl_int : forall n : Z, (Z.abs n <= 2 ^ 53)%Z -> is_float fl (inject_Z n);
  fl_opp : forall x, is_float fl x -> is_float fl (- x);
  fl_twice : forall x, is_float fl x -> is_float fl (2 * x)
}.

(** Largest price for which one unit of padding is not lost to rounding:
    2^53 - 2. *)
Definition price_limit : Q := inject_Z (2 ^ 53 - 2).

Definition in_range (c : Candle) : Prop :=
  - price_limit <= low c /\ high c <= price_limit.

(** An overdraft no larger than twice the tolerance of the guard. *)
Definition within_tolerance (fl : Q -> Q) (s : Sim) : Prop :=
  - (2 * fl eps_usd) <= balance_usd s /\ - (2 * fl eps_eth) <= balance_eth s.

(** Largest finite double, (2^53 - 1) * 2^971.  [fl] has no largest value;
    binary64 answers [inf] above this one. *)
Definition max_double : Q := inject_Z ((2 ^ 53 - 1) * 2 ^ 971).

(** A tick never leaves a negative price, and leaves a double. *)
Definition sound_action (a : Action) : Prop :=
  match a with
  | NewPrice p => 0 <= p /\ p <= max_double
  | _ => True
  end.

(** What every state of the account satisfies once it started from float
    balances that were not negative. *)
Definition account_ok (fl : Q -> Q) (s : Sim) : Prop :=
  is_float fl (balance_usd s) /\ is_float fl (balance_eth s) /\
  within_tolerance fl s /\ 0 <= current_price s.

(** The padding of a window with extremes [all_high] and [all_low], as
    [price_bounds] computes it. *)
Definition window_padding (fl : Q -> Q) (all_high all_low : Q) : Q :=
  Qmax 1 (fl (fl (all_high - all_low) * fl 0.10)).

(** Rounding to the nearest integer, ties to even: a coarse rounding on
    which the statements can be run. *)
Definition nearest_integer (x : Q) : Q := inject_Z (round_half_even x).

(** Balances that doubles can hold. *)
Definition in_double_range (s : Sim) : Prop :=
  Qabs (balance_usd s) <= max_double /\ Qabs (balance_eth s) <= max_double.

(** A run none of whose balances leaves the range of doubles. *)
Fixpoint stays_finite (fl : Q -> Q) (s : Sim) (acts : list Action) : Prop :=
  in_double_range s /\
  match acts with
  | [] => True
  | a :: rest => stays_finite fl (act fl s a) rest
  end.

(** ** Case views of the trade functions *)

(** The three ways [_parse_qty] can go. *)
Inductive Parsed (entry : option Q) : Q * list Report -> Prop :=
| parsed_text : entry = None -> Parsed entry (0, [InvalidQuantity])
| parsed_nonpos (q : Q) : entry = Some q -> q <= 0 -> Parsed entry (0, [InvalidQuantity])
| parsed_pos (q : Q) : entry = Some q -> 0 < q -> Parsed entry (q, []).

(** Outcome of [_buy_eth], case by case. *)
Inductive Bought (entry : option Q) (s : Sim) : Sim * list Report -> Prop :=
| bought_invalid :
    (entry = None \/ exists q, entry = Some q /\ q <= 0) ->
    Bought entry s (s, [InvalidQuantity])
| bought_short (q : Q) :
    entry = Some q -> 0 < q -> balance_usd s + eps_usd < q * current_price s ->
    Bought entry s (s, [InsufficientBalance])
| bought_filled (q : Q) :
    entry = Some q -> 0 < q -> q * current_price s <= balance_usd s + eps_usd ->
    Bought entry s
      ({| balance_usd := balance_usd s - q * current_price s;
          balance_eth := balance_eth s + q;
          current_price := current_price s;
          prev_price := prev_price s;
          candles := candles s |}, [OrderFilled]).

(** Outcome of [_sell_eth], case by case. *)
Inductive Sold (entry : option Q) (s : Sim) : Sim * list Report -> Prop :=
| sold_invalid :
    (entry = None \/ exists q, entry = Some q /\ q <= 0) ->
    Sold entry s (s, [InvalidQuantity])
| sold_short (q : Q) :
    entry = Some q -> 0 < q -> balance_eth s + eps_eth < q ->
    Sold entry s (s, [InsufficientBalance])
| sold_filled (q : Q) :
    entry = Some q -> 0 < q -> q <= balance_eth s + eps_eth ->
    Sold entry s
      ({| balance_usd := balance_usd s + q * current_price s;
          balance_eth := balance_eth s - q;
          current_price := current_price s;
          prev_price := prev_price s;
          candles := candles s |}, [OrderFilled]).

(** ** The trade functions on IEEE binary64

    The same three methods with the arithmetic and the comparisons of
    binary64 doubles, to run concrete scenarios exactly as the interpreter
    does.  Only the balances and the price are kept. *)

Module Binary64.

Local Open Scope float_scope.

Record Account : Type := mkAccount {
  usd : float;
  eth : float;
  price : float
}.

Definition _parse_qty64 (entry : option float) : float * list Report :=
  match entry with
  | Some q => if PrimFloat.leb q 0 then (0, [InvalidQuantity]) else (q, [])
  | None => (0, [InvalidQuantity])
  end.

Definition _buy_eth64 (entry : option float) (a : Account) : Account * list Report :=
  let (qty, shown) := _parse_qty64 entry in
  if PrimFloat.leb qty 0 then (a, shown)
  else
    let cost := qty * price a in
    if PrimFloat.ltb (usd a + 1e-9) cost then (a, shown ++ [InsufficientBalance])
    else
      ({| usd := usd a - cost; eth := eth a + qty; price := price a |},
       shown ++ [OrderFilled]).

Definition _sell_eth64 (entry : option float) (a : Account) : Account * list Report :=
  let (qty, shown) := _parse_qty64 entry in
  if PrimFloat.leb qty 0 then (a, shown)
  else if PrimFloat.ltb (eth a + 1e-12) qty then (a, shown ++ [InsufficientBalance])
  else
    let proceeds := qty * price a in
    ({| usd := usd a + proceeds; eth := eth a - qty; price := price a |},
     shown ++ [OrderFilled]).

(** The raw open of the first candle, [3500 * (1 + uniform(-0.001, 0.001))]. *)
Definition first_open64 (r : float) : float :=
  3500 * (1 + (-0.001 + (0.001 - -0.001) * r)).

(** The account after [__init__] when the first tick leaves the price. *)
Definition opening : Account := {| usd := 10000; eth := 0; price := 3500 |}.

(** One entry of [self.candles], without the colour. *)
Record Candle64 : Type := mkCandle64 {
  open64 : float;
  high64 : float;
  low64 : float;
  close64 : float
}.

(** [max(a, b)] and [min(a, b)] on floats. *)
Definition max64 (a b : float) : float := if PrimFloat.ltb a b then b else a.
Definition min64 (a b : float) : float := if PrimFloat.ltb b a then b else a.

(** The price bounds of [_draw_chart] for the bars in [data]; [None] is the
    [ValueError] of an empty window. *)
Definition price_bounds64 (data : list Candle64) : option (float * float) :=
  match data with
  | [] => None
  | c :: rest =>
      let all_high := fold_left max64 (map high64 rest) (high64 c) in
      let all_low := fold_left min64 (map low64 rest) (low64 c) in
      let padding := max64 1 ((all_high - all_low) * 0.10) in
      Some (all_high + padding, max64 0.1 (all_low - padding))
  end.

(** [yfrom]; [None] is the [ZeroDivisionError]. *)
Definition yfrom64 (chart_h top_price bot_price price : float) : option float :=
  if PrimFloat.eqb (top_price - bot_price) 0 then None
  else Some (chart_h - ((price - bot_price) / (top_price - bot_price)) * chart_h).

Definition flat64 (p : float) : Candle64 :=
  {| open64 := p; high64 := p; low64 := p; close64 := p |}.

End Binary64.

(** ** Drawing ([_draw_grid], the candle loop and the axis texts of
    [_draw_chart]) *)

Definition GRID_HLINES : Z := 6.
Definition GRID_VLINES : Z := 8.

(** The text of a canvas label, kept as the number it prints: the two axis
    texts of [_draw_chart] and the price beside a grid line.  The decimal
    formatting of the f-strings is not modelled. *)
Inductive Label : Type :=
| MaxLabel (p : Q)
| MinLabel (p : Q)
| PriceLabel (p : Q).

(** The canvas items created by [self.chart.create_line],
    [create_rectangle] and [create_text], with the arguments of the call. *)
Inductive Primitive : Type :=
| create_line (x0 y0 x1 y1 : Q) (fill : string)
| create_rectangle (x0 y0 x1 y1 : Q) (fill outline : string)
| create_text (x y : Q) (anchor fill : string) (text : Label).

(** Canvas calls made so far, and how the code went on: drawing has effects
    that stay when a later statement raises. *)
Definition Draw (A : Type) : Type := list Primitive * Result A.

Definition ret {A : Type} (a : A) : Draw A := ([], Ok a).

Definition emit (ps : list Primitive) : Draw unit := (ps, Ok tt).

Definition lift {A : Type} (r : Result A) : Draw A := ([], r).

Definition bindD {A B : Type} (m : Draw A) (k : A -> Draw B) : Draw B :=
  match m with
  | (out, Ok a) => let (out', r) := k a in (out ++ out', r)
  | (out, Raise e) => (out, Raise e)
  end.

Notation "x <~ m ;; k" := (bindD m (fun x => k))
  (at level 61, m at next level, right associativity).
Notation "m ;;; k" := (bindD m (fun _ => k))
  (at level 61, right associativity).

(** [range(lo, hi)]. *)
Definition range (lo hi : Z) : list Z :=
  map (fun k => (lo + Z.of_nat k)%Z) (seq 0 (Z.to_nat (hi - lo))).

(** [_draw_grid]: the horizontal lines with their price labels, then the
    vertical lines.  [chart_h / GRID_HLINES] and [i / GRID_HLINES] divide two
    [int]s into a [float]. *)
Definition grid_y (fl : Q -> Q) (i : Z) : Q :=
  fl (inject_Z i * fl (inject_Z chart_h / inject_Z GRID_HLINES)).

Definition grid_price (fl : Q -> Q) (top_price bot_price : Q) (i : Z) : Q :=
  fl (top_price
      - fl (fl (top_price - bot_price) * fl (inject_Z i / inject_Z GRID_HLINES))).

Definition grid_x (fl : Q -> Q) (i : Z) : Q :=
  fl (inject_Z i * fl (inject_Z chart_w / inject_Z GRID_VLINES)).

Definition _draw_grid (fl : Q -> Q) (top_price bot_price : Q) : list Primitive :=
  flat_map
    (fun i =>
       let y := grid_y fl i in
       let p := grid_price fl top_price bot_price i in
       [create_line 0 y (inject_Z chart_w) y "#23262e";
        create_text (inject_Z (chart_w - 6)) (fl (y + 2)) "ne" "#8a8f9a"
          (PriceLabel p)])
    (range 0 (GRID_HLINES + 1))
  ++
  map
    (fun i =>
       let x := grid_x fl i in
       create_line x 0 x (inject_Z chart_h) "#20232b")
    (range 1 GRID_VLINES).

(** The body of one candle: from the higher to the lower of the two rows,
    stretched to one pixel when it is thinner. *)
Definition body_rows (fl : Q -> Q) (y_open y_close : Q) : Q * Q :=
  let top := Qmin y_open y_close in
  let bottom := Qmax y_open y_close in
  if Qgt_bool 1 (Qabs (fl (bottom - top))) then (top, fl (top + 1)) else (top, bottom).

(** The loop [for c in data] of [_draw_chart], entered with the running
    abscissa [x]. *)
Fixpoint draw_candles (fl : Q -> Q) (top_price bot_price : Q) (x : Z)
  (data : list Candle) : Draw unit :=
  match data with
  | [] => ret tt
  | c :: rest =>
      let x_center := (x + CANDLE_WIDTH / 2)%Z in
      yh <~ lift (yfrom_fl fl chart_h top_price bot_price (high c)) ;;
      yl <~ lift (yfrom_fl fl chart_h top_price bot_price (low c)) ;;
      emit [create_line (inject_Z x_center) yh (inject_Z x_center) yl (color c)] ;;;
      y_open <~ lift (yfrom_fl fl chart_h top_price bot_price (open c)) ;;
      y_close <~ lift (yfrom_fl fl chart_h top_price bot_price (close c)) ;;
      let rows := body_rows fl y_open y_close in
      emit [create_rectangle (inject_Z x) (fst rows)
              (inject_Z (x + CANDLE_WIDTH)) (snd rows) (color c) (color c)] ;;;
      draw_candles fl top_price bot_price (x + step) rest
  end.

(** [_draw_chart]: the canvas after the call (it is cleared first) and the
    exception, if any, that ended the call. *)
Definition _draw_chart (fl : Q -> Q) (history : list Candle) : Draw unit :=
  w <~ lift (compute_window fl chart_w step history) ;;
  match w with
  | None => ret tt
  | Some win =>
      emit (_draw_grid fl (top_price win) (bot_price win)) ;;;
      draw_candles fl (top_price win) (bot_price win) 0 (data win) ;;;
      emit [create_text 8 10 "nw" "#c7c7c7" (MaxLabel (top_price win));
            create_text 8 (inject_Z (chart_h - 24)) "nw" "#c7c7c7"
              (MinLabel (bot_price win))]
  end.

(** ** Balance view and labels ([_set_balance_view], [_refresh_info_labels]) *)

(** [_set_balance_view]: the new value of [self.balance_view]. *)
Definition _set_balance_view (mode : string) (balance_view : string) : string :=
  if ((mode =? "USD") || (mode =? "ETH"))%string then mode else balance_view.



(** ** Further properties of reachable states *)

(** Each candle opens where the one before it closed. *)
Fixpoint linked (cs : list Candle) : Prop :=
  match cs with
  | a :: (b :: _) as tl => open b = close a /\ linked tl
  | _ => True
  end.

(** A whole number of cents. *)
Definition whole_cents (q : Q) : Prop := exists n : Z, q = n # 100.

Definition candle_in_cents (c : Candle) : Prop :=
  whole_cents (open c) /\ whole_cents (high c) /\
  whole_cents (low c) /\ whole_cents (close c).

Definition sim_chain (s : Sim) : Prop :=
  whole_cents (current_price s) /\
  Forall candle_in_cents (candles s) /\
  linked (candles s) /\
  exists older k, candles s = older ++ [k] /\ close k = current_price s.

(** Number of timer events in a sequence. *)
Definition ticks (evs : list Event) : nat :=
  List.length (filter (fun e => match e with Tick _ _ => true | _ => false end) evs).

(** Only button presses, no timer event. *)
Definition is_trade (e : Event) : Prop :=
  match e with
  | Tick _ _ => False
  | _ => True
  end.

(** The row [yfrom] computes when its divisor is not zero. *)
Definition row (top_price bot_price price : Q) : Q :=
  inject_Z chart_h - (price - bot_price) / (top_price - bot_price) * inject_Z chart_h.

(** The two canvas items of the candle drawn at abscissa [x], from the rows
    of its four prices. *)
Definition wick (x : Z) (y_high y_low : Q) (c : Candle) : Primitive :=
  let x_center := inject_Z (x + CANDLE_WIDTH / 2) in
  create_line x_center y_high x_center y_low (color c).

Definition body (fl : Q -> Q) (x : Z) (y_open y_close : Q) (c : Candle) : Primitive :=
  let rows := body_rows fl y_open y_close in
  create_rectangle (inject_Z x) (fst rows) (inject_Z (x + CANDLE_WIDTH)) (snd rows)
                   (color c) (color c).

(** The row [yfrom] computes in binary64 when its divisor is not zero. *)
Definition row_fl (fl : Q -> Q) (top_price bot_price price : Q) : Q :=
  fl (inject_Z chart_h
      - fl (fl (fl (price - bot_price) / fl (top_price - bot_price))
            * inject_Z chart_h)).

(** A candle that the scale keeps on the canvas: well-formed, within the
    limit, and with a low not under the floor 0.1 of the bottom price. *)
Definition drawable (fl : Q -> Q) (c : Candle) : Prop :=
  well_formed c /\ in_range c /\ fl 0.1 <= low c.

(** ** Sample inputs *)

(** Draws and candles on which the definitions are run. *)
Definition draws_a : CandleDraws := {| r_open := 1 # 2; z_high := 1; z_low := -1 |}.
Definition draws_b : CandleDraws := {| r_open := 0; z_high := 2; z_low := 3 |}.
Definition flat (p : Q) : Candle :=
  {| open := p; high := p; low := p; close := p; color := GREEN |}.

(** * Proofs *)

(** *** Rounding lemmas *)

Section Rounding.

#[local] Instance round_half_even_comp : Proper (Qeq ==> eq) round_half_even.
Proof.
  intros t u E. unfold round_half_even.
  rewrite (Qfloor_comp _ _ E).
  assert (C : Qcompare (t - inject_Z (Qfloor u)) (1 # 2)
              = Qcompare (u - inject_Z (Qfloor u)) (1 # 2)).
  { apply Qcompare_comp; [ rewrite E | ]; reflexivity. }
  now rewrite C.
Qed.

Lemma inject_Z_succ (n : Z) : inject_Z (n + 1) == inject_Z n + 1.
Proof. now rewrite inject_Z_plus. Qed.

Lemma round_half_even_near (t : Q) :
  inject_Z (round_half_even t) - (1 # 2) <= t /\
  t <= inject_Z (round_half_even t) + (1 # 2).
Proof.
  unfold round_half_even.
  pose proof (Qfloor_le t) as Hlo.
  pose proof (Qlt_floor t) as Hhi. rewrite inject_Z_succ in Hhi.
  destruct (Qcompare_spec (t - inject_Z (Qfloor t)) (1 # 2)) as [E | L | G].
  - destruct (Z.even (Qfloor t)); rewrite ?inject_Z_succ; lra.
  - lra.
  - rewrite inject_Z_succ. lra.
Qed.

Lemma round_half_even_mono (t u : Q) :
  t <= u -> (round_half_even t <= round_half_even u)%Z.
Proof.
  intros Htu.
  destruct (Z_le_gt_dec (round_half_even t) (round_half_even u)) as [ | Hgt];
    [ assumption | exfalso ].
  assert (Hz : (round_half_even u + 1 <= round_half_even t)%Z) by lia.
  rewrite Zle_Qle, inject_Z_succ in Hz.
  destruct (round_half_even_near t) as [Ht _].
  destruct (round_half_even_near u) as [_ Hu].
  assert (E : t == u) by lra.
  rewrite (round_half_even_comp _ _ E) in Hgt. lia.
Qed.

Lemma round_half_even_Z (n : Z) : round_half_even (inject_Z n) = n.
Proof.
  unfold round_half_even. rewrite Qfloor_Z.
  destruct (Qcompare_spec (inject_Z n - inject_Z n) (1 # 2)); [ lra | reflexivity | lra ].
Qed.

Lemma round_2 (x : Q) : round x 2 = (round_half_even (x * 100) # 100).
Proof. reflexivity. Qed.

#[local] Instance round_comp (n : nat) : Proper (Qeq ==> Qeq) (fun x => round x n).
Proof.
  intros x y E. unfold round.
  assert (E' : x * inject_Z (Z.pos (Z.to_pos (10 ^ Z.of_nat n)))
               == y * inject_Z (Z.pos (Z.to_pos (10 ^ Z.of_nat n))))
    by (rewrite E; reflexivity).
  now rewrite (round_half_even_comp _ _ E').
Qed.

Lemma Qmake_100_le (a b : Z) : (a <= b)%Z -> a # 100 <= b # 100.
Proof. unfold Qle; simpl; lia. Qed.

Lemma round_mono (x y : Q) : x <= y -> round x 2 <= round y 2.
Proof.
  intros H. rewrite !round_2. apply Qmake_100_le, round_half_even_mono. lra.
Qed.

Lemma round_cents (n : Z) : round (n # 100) 2 = (n # 100).
Proof.
  rewrite round_2.
  assert (E : (n # 100) * 100 == inject_Z n).
  { unfold Qeq, Qmult, inject_Z; simpl. lia. }
  now rewrite (round_half_even_comp _ _ E), round_half_even_Z.
Qed.

Lemma round_idem (x : Q) : round (round x 2) 2 = round x 2.
Proof. rewrite (round_2 x). apply round_cents. Qed.

Lemma cents_round (x : Q) : cents (round x 2).
Proof. unfold cents. now rewrite round_idem. Qed.

Lemma round_ge_1 (x : Q) : 1 <= x -> 1 <= round x 2.
Proof.
  intros H. apply round_mono in H.
  assert (E : round 1 2 == 1) by reflexivity.
  lra.
Qed.

Lemma round_nonneg (x : Q) : 0 <= x -> 0 <= round x 2.
Proof.
  intros H. apply round_mono in H.
  assert (E : round 0 2 == 0) by reflexivity.
  lra.
Qed.

Lemma round_max (x y : Q) : round (Qmax x y) 2 == Qmax (round x 2) (round y 2).
Proof.
  destruct (Q.max_spec x y) as [[L E] | [L E]].
  - rewrite (round_comp 2 _ _ E).
    symmetry. apply Q.max_r, round_mono. lra.
  - rewrite (round_comp 2 _ _ E).
    symmetry. apply Q.max_l, round_mono. lra.
Qed.

Lemma round_min (x y : Q) : round (Qmin x y) 2 == Qmin (round x 2) (round y 2).
Proof.
  destruct (Q.min_spec x y) as [[L E] | [L E]].
  - rewrite (round_comp 2 _ _ E).
    symmetry. apply Q.min_l, round_mono. lra.
  - rewrite (round_comp 2 _ _ E).
    symmetry. apply Q.min_r, round_mono. lra.
Qed.

End Rounding.

(** *** Candles *)

Section Candles.

Lemma wick_up (m a : Q) : 0 <= m -> m <= m * (1 + Qabs a).
Proof.
  intros Hm. pose proof (Qabs_nonneg a) as Ha.
  pose proof (Qmult_le_0_compat _ _ Hm Ha). lra.
Qed.

Lemma wick_down (m a : Q) : 0 <= m -> m * (1 - Qabs a) <= m.
Proof.
  intros Hm. pose proof (Qabs_nonneg a) as Ha.
  pose proof (Qmult_le_0_compat _ _ Hm Ha). lra.
Qed.

Lemma make_candle_invariant (o c zh zl : Q) :
  0 <= o -> 0 <= c -> candle_invariant (make_candle o c zh zl).
Proof.
  intros Ho Hc. unfold candle_invariant, make_candle; cbn [open high low close]. split.
  - rewrite <- round_min. apply round_mono, wick_down.
    apply Q.min_glb; assumption.
  - rewrite <- round_max. apply round_mono, wick_up.
    apply Q.max_le_iff. now left.
Qed.

Lemma Qmax_keep (x y : Q) : y <= x -> Qmax x y = x.
Proof.
  intros H. unfold Qmax, GenericMinMax.gmax.
  destruct (Qcompare_spec x y); [ reflexivity | lra | reflexivity ].
Qed.

Lemma Qmin_keep (x y : Q) : x <= y -> Qmin x y = x.
Proof.
  intros H. unfold Qmin, GenericMinMax.gmin.
  destruct (Qcompare_spec x y); [ reflexivity | reflexivity | lra ].
Qed.

Lemma clamp_noop (c : Candle) : candle_invariant c -> clamp_to_body c = c.
Proof.
  intros [Hl Hh]. destruct c as [o h l cl col].
  unfold clamp_to_body; cbn [open high low close color] in *.
  now rewrite (Qmax_keep _ _ Hh), (Qmin_keep _ _ Hl).
Qed.

Lemma make_candle_stored_ok (o c zh zl : Q) :
  1 <= o -> 1 <= c -> stored_ok (make_candle o c zh zl).
Proof.
  intros Ho Hc.
  assert (Io := make_candle_invariant o c zh zl).
  unfold stored_ok, well_formed, price_ok.
  pose proof (round_ge_1 _ Ho). pose proof (round_ge_1 _ Hc).
  cbn [make_candle open close] in *.
  repeat split; try apply cents_round; try lra; apply Io; lra.
Qed.

Lemma make_candle_color (o c zh zl : Q) :
  color (make_candle o c zh zl) = GREEN <-> o <= c.
Proof.
  cbn [make_candle color]. rewrite <- Qle_bool_iff.
  destruct (Qle_bool o c); split; intros H; try reflexivity; discriminate.
Qed.

Lemma direction_green (c : Candle) : direction c = GREEN <-> open c <= close c.
Proof.
  unfold direction. rewrite <- Qle_bool_iff.
  destruct (Qle_bool (open c) (close c)); split; intros H; try reflexivity; discriminate.
Qed.

Lemma color_cases (o c zh zl : Q) :
  color (make_candle o c zh zl) = GREEN \/ color (make_candle o c zh zl) = RED.
Proof. cbn [make_candle color]. destruct (Qle_bool o c); auto. Qed.

(** On raw values that are already in cents the tag matches the stored fields. *)
Lemma make_candle_tag (o c zh zl : Q) :
  cents o -> cents c -> tag_consistent (make_candle o c zh zl).
Proof.
  unfold cents, tag_consistent, direction. intros Ho Hc.
  cbn [make_candle color open close].
  assert (E : Qle_bool (round o 2) (round c 2) = Qle_bool o c).
  { apply eq_true_iff_eq. rewrite !Qle_bool_iff, Ho, Hc. reflexivity. }
  now rewrite E.
Qed.

End Candles.

(** *** Reachable states *)

Section Reachable.

Lemma simulate_price_ok (z : Q) (s : Sim) :
  price_ok (current_price (_simulate_next_price z s)).
Proof.
  cbn [_simulate_next_price current_price]. split.
  - apply round_ge_1, Q.le_max_l.
  - apply cents_round.
Qed.

Lemma first_open_ge_1 (r : Q) : unit_draw r -> 1 <= next_open true r fresh.
Proof.
  intros [Hr0 Hr1]. unfold next_open, uniform, fresh; cbn [current_price candles].
  lra.
Qed.

Lemma next_open_last (r : Q) (s : Sim) (k : Candle) (older : list Candle) :
  candles s = older ++ [k] -> next_open false r s = close k.
Proof. intros E. unfold next_open. now rewrite E, rev_unit. Qed.

Lemma nonempty_last {A : Type} (l : list A) :
  l <> [] -> exists older k, l = older ++ [k].
Proof.
  intros H. destruct (exists_last H) as [older [k E]]. now exists older, k.
Qed.

Lemma append_first_ok (d : CandleDraws) :
  unit_draw (r_open d) -> sim_ok (_append_new_candle true d fresh).
Proof.
  intros Hr. unfold sim_ok; cbn [_append_new_candle current_price candles].
  assert (Hp : price_ok (current_price fresh)).
  { split; [ cbn; lra | reflexivity ]. }
  repeat split; try apply Hp.
  - discriminate.
  - cbn [fresh candles app]. constructor; [ | constructor ].
    apply make_candle_stored_ok; [ now apply first_open_ge_1 | apply Hp ].
Qed.

Lemma append_next_ok (d : CandleDraws) (s : Sim) :
  price_ok (current_price s) -> candles s <> [] -> Forall stored_ok (candles s) ->
  sim_ok (_append_new_candle false d s).
Proof.
  intros Hp Hne Hall. unfold sim_ok; cbn [_append_new_candle current_price candles].
  destruct (nonempty_last _ Hne) as [older [k E]].
  repeat split; try apply Hp.
  - intros C. now apply app_eq_nil in C as [_ C].
  - apply Forall_app; split; [ assumption | ].
    constructor; [ | constructor ].
    rewrite (next_open_last _ _ _ _ E).
    rewrite E in Hall. apply Forall_app in Hall as [_ Hk].
    inversion Hk as [ | ? ? [_ [[Hk1 _] _]] _ ]; subst.
    apply make_candle_stored_ok; [ assumption | apply Hp ].
Qed.

Lemma tick_ok (z : Q) (d : CandleDraws) (s : Sim) : sim_ok s -> sim_ok (_tick z d s).
Proof.
  intros (_ & Hne & Hall). unfold _tick.
  apply append_next_ok; [ apply simulate_price_ok | assumption | assumption ].
Qed.

Lemma buy_frame (entry : option Q) (s : Sim) :
  current_price (fst (_buy_eth entry s)) = current_price s /\
  candles (fst (_buy_eth entry s)) = candles s.
Proof.
  unfold _buy_eth. destruct (_parse_qty entry) as [qty shown].
  destruct (Qle_bool qty 0); [ now split | ].
  destruct (Qgt_bool _ _); now split.
Qed.

Lemma sell_frame (entry : option Q) (s : Sim) :
  current_price (fst (_sell_eth entry s)) = current_price s /\
  candles (fst (_sell_eth entry s)) = candles s.
Proof.
  unfold _sell_eth. destruct (_parse_qty entry) as [qty shown].
  destruct (Qle_bool qty 0); [ now split | ].
  destruct (Qgt_bool _ _); now split.
Qed.

Lemma handle_ok (s : Sim) (e : Event) : sim_ok s -> sim_ok (handle s e).
Proof.
  intros H. destruct e as [z d | entry | entry]; cbn [handle].
  - now apply tick_ok.
  - destruct (buy_frame entry s) as [Ep Ec]. unfold sim_ok. now rewrite Ep, Ec.
  - destruct (sell_frame entry s) as [Ep Ec]. unfold sim_ok. now rewrite Ep, Ec.
Qed.

Lemma fold_handle_ok (evs : list Event) (s : Sim) :
  sim_ok s -> sim_ok (fold_left handle evs s).
Proof.
  revert s. induction evs as [ | e evs IH]; intros s H; cbn [fold_left].
  - assumption.
  - apply IH. now apply handle_ok.
Qed.

Lemma run_ok (d0 : CandleDraws) (z1 : Q) (d1 : CandleDraws) (evs : list Event) :
  unit_draw (r_open d0) -> sim_ok (run d0 z1 d1 evs).
Proof.
  intros Hr. unfold run, __init__.
  apply fold_handle_ok, tick_ok. now apply append_first_ok.
Qed.

End Reachable.

(** *** Trades *)

Section Trades.

Lemma Qgt_bool_iff (a b : Q) : Qgt_bool a b = true <-> b < a.
Proof.
  unfold Qgt_bool. rewrite negb_true_iff, <- not_true_iff_false, Qle_bool_iff.
  split; [ apply Qnot_le_lt | apply Qlt_not_le ].
Qed.

Lemma Qgt_bool_false (a b : Q) : Qgt_bool a b = false <-> a <= b.
Proof.
  unfold Qgt_bool. rewrite negb_false_iff. apply Qle_bool_iff.
Qed.

Lemma parse_qty_spec (entry : option Q) : Parsed entry (_parse_qty entry).
Proof.
  destruct entry as [q | ]; cbn [_parse_qty].
  - destruct (Qle_bool q 0) eqn:E.
    + apply (parsed_nonpos _ q); [ reflexivity | now apply Qle_bool_iff ].
    + apply (parsed_pos _ q); [ reflexivity | ].
      apply Qnot_le_lt. intros C. apply Qle_bool_iff in C. congruence.
  - now apply parsed_text.
Qed.

Lemma buy_spec (entry : option Q) (s : Sim) : Bought entry s (_buy_eth entry s).
Proof.
  unfold _buy_eth.
  destruct (parse_qty_spec entry) as [E | q E Hq | q E Hq].
  - cbn. apply bought_invalid. now left.
  - cbn. apply bought_invalid. right. now exists q.
  - assert (N : Qle_bool q 0 = false).
    { apply not_true_iff_false. rewrite Qle_bool_iff. now apply Qlt_not_le. }
    rewrite N.
    destruct (Qgt_bool (q * current_price s) (balance_usd s + eps_usd)) eqn:G.
    + apply (bought_short _ _ q); auto. now apply Qgt_bool_iff.
    + apply (bought_filled _ _ q); auto. now apply Qgt_bool_false.
Qed.

Lemma sell_spec (entry : option Q) (s : Sim) : Sold entry s (_sell_eth entry s).
Proof.
  unfold _sell_eth.
  destruct (parse_qty_spec entry) as [E | q E Hq | q E Hq].
  - cbn. apply sold_invalid. now left.
  - cbn. apply sold_invalid. right. now exists q.
  - assert (N : Qle_bool q 0 = false).
    { apply not_true_iff_false. rewrite Qle_bool_iff. now apply Qlt_not_le. }
    rewrite N.
    destruct (Qgt_bool q (balance_eth s + eps_eth)) eqn:G.
    + apply (sold_short _ _ q); auto. now apply Qgt_bool_iff.
    + apply (sold_filled _ _ q); auto. now apply Qgt_bool_false.
Qed.

End Trades.

(** *** Window and scale *)

Section Window.

Lemma max_candles_ok (w st : Z) :
  st <> 0%Z -> max_candles w st = Ok (Z.max 1 (w / st)).
Proof.
  intros H. unfold max_candles, floordiv.
  apply Z.eqb_neq in H. now rewrite H.
Qed.

Lemma slice_last {A : Type} (n : Z) (l : list A) :
  (1 <= n)%Z ->
  slice_from (- n) l = last_n (Z.to_nat (Z.min n (Z.of_nat (List.length l)))) l.
Proof.
  intros Hn. unfold slice_from, last_n.
  assert (L : (- n <? 0)%Z = true) by (apply Z.ltb_lt; lia).
  rewrite L. f_equal. lia.
Qed.

Lemma visible_spec (w st : Z) (history : list Candle) :
  st <> 0%Z ->
  visible w st history = Ok (last_n (window_size w st (List.length history)) history).
Proof.
  intros H. unfold visible. rewrite (max_candles_ok _ _ H). cbn [bind].
  now rewrite slice_last by lia.
Qed.

Lemma window_size_le (w st : Z) (len : nat) : (window_size w st len <= len)%nat.
Proof. unfold window_size. lia. Qed.

Lemma last_n_length {A : Type} (k : nat) (l : list A) :
  (k <= List.length l)%nat -> List.length (last_n k l) = k.
Proof. intros H. unfold last_n. rewrite length_skipn. lia. Qed.

Lemma last_n_suffix {A : Type} (k : nat) (l : list A) :
  exists older, l = older ++ last_n k l.
Proof.
  exists (firstn (List.length l - k) l). unfold last_n.
  now rewrite firstn_skipn.
Qed.

Lemma last_n_cons_nonempty {A : Type} (k : nat) (l : list A) :
  (1 <= k)%nat -> l <> [] -> last_n k l <> [].
Proof.
  intros Hk Hl C. apply (f_equal (@List.length A)) in C.
  unfold last_n in C. rewrite length_skipn in C.
  destruct l; [ congruence | cbn [List.length] in C; lia ].
Qed.

Lemma fold_max_ge (tl : list Q) (x : Q) : x <= fold_left Qmax tl x.
Proof.
  revert x. induction tl as [ | y tl IH]; intros x; cbn [fold_left].
  - lra.
  - specialize (IH (Qmax x y)). pose proof (Q.le_max_l x y). lra.
Qed.

Lemma fold_min_le (tl : list Q) (x : Q) : fold_left Qmin tl x <= x.
Proof.
  revert x. induction tl as [ | y tl IH]; intros x; cbn [fold_left].
  - lra.
  - specialize (IH (Qmin x y)). pose proof (Q.le_min_l x y). lra.
Qed.

Lemma truediv_ok (a b : Q) : ~ b == 0 -> truediv a b = Ok (a / b).
Proof.
  intros H. unfold truediv.
  destruct (Qeq_bool b 0) eqn:E; [ | reflexivity ].
  apply Qeq_bool_iff in E. contradiction.
Qed.

Lemma yfrom_ok (h : Z) (top bot price : Q) :
  bot < top ->
  yfrom h top bot price
  = Ok (inject_Z h - (price - bot) / (top - bot) * inject_Z h).
Proof.
  intros H. unfold yfrom. rewrite truediv_ok by lra. reflexivity.
Qed.

Lemma yfrom_top (h : Z) (top bot : Q) :
  bot < top -> inject_Z h - (top - bot) / (top - bot) * inject_Z h == 0.
Proof. intros H. field. lra. Qed.

Lemma yfrom_bot (h : Z) (top bot : Q) :
  bot < top -> inject_Z h - (bot - bot) / (top - bot) * inject_Z h == inject_Z h.
Proof. intros H. field. lra. Qed.

End Window.

(** *** Direction tags *)

Section Tags.

Lemma make_candle_sound (o c zh zl : Q) : tag_sound (make_candle o c zh zl).
Proof.
  unfold tag_sound. cbn [make_candle color open close].
  destruct (Qle_bool o c) eqn:E.
  - repeat split; auto; try (intros; discriminate); intros _.
    apply round_mono. now apply Qle_bool_iff.
  - repeat split; auto; try (intros; discriminate); intros _.
    apply round_mono. apply Qlt_le_weak, Qnot_le_lt.
    intros C. apply Qle_bool_iff in C. congruence.
Qed.

Lemma make_candle_cents_close (o c zh zl : Q) : cents (close (make_candle o c zh zl)).
Proof. cbn [make_candle close]. apply cents_round. Qed.

Lemma append_first_tags (d : CandleDraws) : sim_tags (_append_new_candle true d fresh).
Proof.
  unfold sim_tags; cbn [_append_new_candle current_price candles fresh app].
  split; [ reflexivity | split ].
  - constructor; [ | constructor ].
    split; [ apply make_candle_cents_close | apply make_candle_sound ].
  - eexists _, []. split; [ reflexivity | constructor ].
Qed.

Lemma append_next_tags (d : CandleDraws) (s : Sim) :
  sim_tags s -> sim_tags (_append_new_candle false d s).
Proof.
  intros (Hp & Hall & first & later & E & Hlater).
  unfold sim_tags; cbn [_append_new_candle current_price candles].
  split; [ assumption | split ].
  - apply Forall_app; split; [ assumption | ].
    constructor; [ | constructor ].
    split; [ apply make_candle_cents_close | apply make_candle_sound ].
  - exists first, (later ++ [make_candle (next_open false (r_open d) s)
                                (current_price s) (z_high d) (z_low d)]).
    split; [ now rewrite E | ].
    apply Forall_app; split; [ assumption | ].
    constructor; [ | constructor ].
    assert (Hne : candles s <> []) by (rewrite E; discriminate).
    destruct (nonempty_last _ Hne) as [older [k Ek]].
    rewrite (next_open_last _ _ _ _ Ek).
    rewrite Ek in Hall. apply Forall_app in Hall as [_ Hk].
    inversion Hk as [ | ? ? [Hck _] _ ]; subst.
    now apply make_candle_tag.
Qed.

Lemma tick_tags (z : Q) (d : CandleDraws) (s : Sim) : sim_tags s -> sim_tags (_tick z d s).
Proof.
  intros (_ & Hall & Hsplit). unfold _tick. apply append_next_tags.
  unfold sim_tags; cbn [_simulate_next_price current_price candles].
  split; [ apply cents_round | now split ].
Qed.

Lemma handle_tags (s : Sim) (e : Event) : sim_tags s -> sim_tags (handle s e).
Proof.
  intros H. destruct e as [z d | entry | entry]; cbn [handle].
  - now apply tick_tags.
  - destruct (buy_frame entry s) as [Ep Ec]. unfold sim_tags. now rewrite Ep, Ec.
  - destruct (sell_frame entry s) as [Ep Ec]. unfold sim_tags. now rewrite Ep, Ec.
Qed.

Lemma run_tags (d0 : CandleDraws) (z1 : Q) (d1 : CandleDraws) (evs : list Event) :
  sim_tags (run d0 z1 d1 evs).
Proof.
  unfold run, __init__.
  generalize (tick_tags z1 d1 _ (append_first_tags d0)).
  generalize (_tick z1 d1 (_append_new_candle true d0 fresh)).
  induction evs as [ | e evs IH]; intros s H; cbn [fold_left].
  - assumption.
  - apply IH. now apply handle_tags.
Qed.

End Tags.

(** *** Balances *)


Section Balances.

Lemma buy_filled_inv (entry : option Q) (s : Sim) :
  filled (_buy_eth entry s) ->
  exists q, entry = Some q /\ 0 < q /\ q * current_price s <= balance_usd s + eps_usd /\
    balance_usd (fst (_buy_eth entry s)) = balance_usd s - q * current_price s /\
    balance_eth (fst (_buy_eth entry s)) = balance_eth s + q /\
    current_price (fst (_buy_eth entry s)) = current_price s.
Proof.
  unfold filled.
  destruct (buy_spec entry s) as [ _ | q _ _ _ | q E Hq Hc ]; cbn [snd fst In].
  - intros [C | []]; discriminate.
  - intros [C | []]; discriminate.
  - intros _. exists q. repeat split; assumption.
Qed.

Lemma sell_filled_inv (entry : option Q) (s : Sim) :
  filled (_sell_eth entry s) ->
  exists q, entry = Some q /\ 0 < q /\ q <= balance_eth s + eps_eth /\
    balance_usd (fst (_sell_eth entry s)) = balance_usd s + q * current_price s /\
    balance_eth (fst (_sell_eth entry s)) = balance_eth s - q /\
    current_price (fst (_sell_eth entry s)) = current_price s.
Proof.
  unfold filled.
  destruct (sell_spec entry s) as [ _ | q _ _ _ | q E Hq Hc ]; cbn [snd fst In].
  - intros [C | []]; discriminate.
  - intros [C | []]; discriminate.
  - intros _. exists q. repeat split; assumption.
Qed.

Lemma buy_rejected (entry : option Q) (s : Sim) :
  ~ filled (_buy_eth entry s) -> fst (_buy_eth entry s) = s.
Proof.
  unfold filled.
  destruct (buy_spec entry s) as [ _ | q _ _ _ | q E Hq Hc ]; cbn [snd fst In];
    try reflexivity.
  intros C. exfalso. apply C. now left.
Qed.

Lemma sell_rejected (entry : option Q) (s : Sim) :
  ~ filled (_sell_eth entry s) -> fst (_sell_eth entry s) = s.
Proof.
  unfold filled.
  destruct (sell_spec entry s) as [ _ | q _ _ _ | q E Hq Hc ]; cbn [snd fst In];
    try reflexivity.
  intros C. exfalso. apply C. now left.
Qed.

End Balances.


(** * The claims *)

(** C1. Every candle the aggregator appends, the first one of the
    constructor as well as the ones of later ticks, is stored with
    [low <= min(open, close)] and [max(open, close) <= high] on its rounded
    fields, and clamping the wicks to the body bounds leaves every stored
    candle as it is: rounding is monotone, so it never breaks the ordering. *)
Theorem candle_invariant_after_rounding
  (d0 : CandleDraws) (z1 : Q) (d1 : CandleDraws) (evs : list Event) :
  unit_draw (r_open d0) ->
  candles (run d0 z1 d1 evs) <> [] /\
  Forall (fun c => candle_invariant c /\ clamp_to_body c = c)
         (candles (run d0 z1 d1 evs)).
Proof.
  intros Hr. destruct (run_ok d0 z1 d1 evs Hr) as (_ & Hne & Hall).
  split; [ assumption | ].
  eapply Forall_impl; [ | exact Hall ].
  intros c [(_ & _ & Hinv) _]. split; [ assumption | now apply clamp_noop ].
Qed.

Lemma candle_invariant_after_rounding_witness :
  unit_draw (r_open draws_a) /\
  Forall (fun c => candle_invariant c /\ clamp_to_body c = c)
         (candles (run draws_a 1 draws_b [Tick (-1) draws_a; Buy (Some 0.1)])).
Proof.
  assert (H : unit_draw (r_open draws_a)) by (unfold unit_draw; cbn; lra).
  split; [ exact H | ].
  exact (proj2 (candle_invariant_after_rounding draws_a 1 draws_b _ H)).
Defined.

(** C2. For every current price and every gaussian draw the price step
    stores [round(max(1.0, p * (1 + pct_change)), 2)], and that value is at
    least 1.0, hence never zero or negative.  Positivity of [p] is not even
    needed. *)
Theorem price_never_below_floor (z : Q) (s : Sim) :
  current_price (_simulate_next_price z s)
  = advance (current_price s) (gauss DRIFT VOLATILITY z) /\
  1 <= current_price (_simulate_next_price z s) /\
  0 < current_price (_simulate_next_price z s).
Proof.
  split; [ reflexivity | ].
  destruct (simulate_price_ok z s) as [H _]. split; lra.
Qed.

(** C3. With the class constants the chart is 1450 pixels wide and a candle
    takes 16 pixels; of any history of at least 90 candles the window is the
    last 90, in their original order.  In general the window is the last
    [min(max(1, pixelWidth // step), len(history))] candles. *)
Theorem window_is_tail_of_history :
  chart_w = 1450%Z /\ step = 16%Z /\
  (forall history : list Candle,
     (90 <= List.length history)%nat ->
     visible chart_w step history = Ok (last_n 90 history) /\
     List.length (last_n 90 history) = 90%nat /\
     exists older, history = older ++ last_n 90 history) /\
  (forall (w st : Z) (history : list Candle),
     st <> 0%Z ->
     let k := window_size w st (List.length history) in
     visible w st history = Ok (last_n k history) /\
     List.length (last_n k history) = k /\
     exists older, history = older ++ last_n k history).
Proof.
  split; [ reflexivity | split; [ reflexivity | split ] ].
  - intros history Hlen.
    assert (E : window_size chart_w step (List.length history) = 90%nat).
    { unfold window_size. change (chart_w / step)%Z with 90%Z. lia. }
    rewrite (visible_spec chart_w step history) by discriminate. rewrite E.
    split; [ reflexivity | split ].
    + now apply last_n_length.
    + apply last_n_suffix.
  - intros w st history Hst k.
    split; [ now apply visible_spec | split ].
    + apply last_n_length, window_size_le.
    + apply last_n_suffix.
Qed.

Lemma window_is_tail_of_history_witness :
  visible chart_w step (repeat (flat 100) 1000) = Ok (repeat (flat 100) 90).
Proof.
  destruct window_is_tail_of_history as (_ & _ & H & _).
  destruct (H (repeat (flat 100) 1000)) as (E & _).
  - rewrite repeat_length. apply Nat.leb_le. reflexivity.
  - exact E.
Defined.

(** X21. The tag is computed from the open and close before they are
    rounded: it is up exactly when the raw close is at least the raw open.
    In every reachable state each stored tag is one of the two colours and
    never contradicts the stored fields outright (an up bar has stored
    close >= stored open, a down bar stored close <= stored open), and
    every candle after the first is tagged up exactly when its stored close
    is at least its stored open. *)
Theorem tag_follows_raw_comparison :
  (forall o c zh zl : Q, color (make_candle o c zh zl) = GREEN <-> o <= c) /\
  (forall (d0 : CandleDraws) (z1 : Q) (d1 : CandleDraws) (evs : list Event),
     Forall tag_sound (candles (run d0 z1 d1 evs)) /\
     exists first later,
       candles (run d0 z1 d1 evs) = first :: later /\
       Forall tag_consistent later).
Proof.
  split; [ apply make_candle_color | ].
  intros d0 z1 d1 evs. destruct (run_tags d0 z1 d1 evs) as (_ & Hall & Hsplit).
  split; [ | assumption ].
  eapply Forall_impl; [ | exact Hall ]. now intros c [_ H].
Qed.

(** C4. The tag is taken from the raw open and close and the fields are
    rounded afterwards, so a stored tag can disagree with the stored
    fields: the first candle of the constructor, with [random()] = 0.5005,
    has its raw open 3500.0035 above the close 3500.00 and is tagged down,
    while open and close are both stored as 3500.00, for which the rule
    close >= open says up. *)
Lemma first_candle_tag_disagrees :
  unit_draw (1001 # 2000) /\
  exists c,
    nth_error (candles (run {| r_open := 1001 # 2000; z_high := 0; z_low := 0 |}
                            0 draws_b [])) 0 = Some c /\
    color c = RED /\ open c <= close c /\ ~ tag_consistent c.
Proof.
  split; [ unfold unit_draw; lra | ].
  eexists. split; [ reflexivity | ].
  split; [ reflexivity | split ].
  - apply Qle_bool_iff. reflexivity.
  - unfold tag_consistent. discriminate.
Qed.

Lemma flat_well_formed (p : Q) : 0 < p -> well_formed (flat p).
Proof.
  intros Hp. unfold well_formed, candle_invariant; cbn [flat open close low high].
  pose proof (Q.max_id p). pose proof (Q.min_id p). repeat split; lra.
Qed.

(** C6. Whenever the top price is above the bottom price, the mapping sends
    the top price to pixel row 0 and the bottom price to row [chart_h]. *)
Theorem yfrom_maps_bounds_to_edges (h : Z) (top bot : Q) :
  bot < top ->
  exists y_top y_bot,
    yfrom h top bot top = Ok y_top /\ y_top == 0 /\
    yfrom h top bot bot = Ok y_bot /\ y_bot == inject_Z h.
Proof.
  intros H. do 2 eexists.
  split; [ now apply yfrom_ok | split; [ now apply yfrom_top | ] ].
  split; [ now apply yfrom_ok | now apply yfrom_bot ].
Qed.

Lemma yfrom_maps_bounds_to_edges_witness :
  exists y_top y_bot,
    yfrom chart_h 101 99 101 = Ok y_top /\ y_top == 0 /\
    yfrom chart_h 101 99 99 = Ok y_bot /\ y_bot == inject_Z chart_h.
Proof. apply yfrom_maps_bounds_to_edges. lra. Defined.

(** In the state the constructor leaves (10000 USD, 0 ETH, price 3500),
    selling 1e-12 ETH passes the guard and leaves a negative ETH balance;
    buying 2.857142857143 ETH costs 10000.0000000005 USD, passes the guard
    and leaves a negative USD balance. *)
Lemma trade_leaves_negative_balance :
  let s := run draws_a 0 draws_b [] in
  (0 <= balance_usd s /\ 0 <= balance_eth s /\ current_price s == 3500) /\
  (filled (_sell_eth (Some eps_eth) s) /\ ~ eps_eth <= balance_eth s /\
   balance_eth (fst (_sell_eth (Some eps_eth) s)) < 0) /\
  (filled (_buy_eth (Some 2.857142857143) s) /\
   ~ 2.857142857143 * current_price s <= balance_usd s /\
   balance_usd (fst (_buy_eth (Some 2.857142857143) s)) < 0).
Proof.
  cbv zeta. split; [ | split ].
  - split; [ | split ]; [ apply Qle_bool_iff | apply Qle_bool_iff | ]; reflexivity.
  - split; [ left; reflexivity | split ].
    + apply Qlt_not_le. reflexivity.
    + reflexivity.
  - split; [ left; reflexivity | split ].
    + apply Qlt_not_le. reflexivity.
    + reflexivity.
Qed.

(** C9. Buying 100 ETH at price 3500 with 10000 USD is refused with the
    insufficient-balance warning and changes nothing; in general a trade
    either goes through, or it is refused as an invalid quantity or for
    insufficient balance and the state is left as it was. *)
Theorem rejected_trade_changes_nothing :
  _buy_eth (Some 100) fresh = (fresh, [InsufficientBalance]) /\
  (forall entry s,
     snd (_buy_eth entry s) = [OrderFilled] \/
     (snd (_buy_eth entry s) = [InvalidQuantity] \/
      snd (_buy_eth entry s) = [InsufficientBalance]) /\
     fst (_buy_eth entry s) = s) /\
  (forall entry s,
     snd (_sell_eth entry s) = [OrderFilled] \/
     (snd (_sell_eth entry s) = [InvalidQuantity] \/
      snd (_sell_eth entry s) = [InsufficientBalance]) /\
     fst (_sell_eth entry s) = s).
Proof.
  split; [ reflexivity | split ]; intros entry s.
  - destruct (buy_spec entry s); cbn [fst snd]; auto.
  - destruct (sell_spec entry s); cbn [fst snd]; auto.
Qed.

(** C10. A trade never changes the equity [balance_usd + balance_eth *
    current_price]: a buy that goes through moves exactly [q * price] from
    USD into [q] ETH, a sell that goes through moves [q] ETH into exactly
    [q * price] USD, and a refused trade moves nothing. *)
Theorem equity_is_preserved (entry : option Q) (s : Sim) :
  (filled (_buy_eth entry s) ->
   exists q, entry = Some q /\
     balance_usd (fst (_buy_eth entry s)) = balance_usd s - q * current_price s /\
     balance_eth (fst (_buy_eth entry s)) = balance_eth s + q /\
     equity_usd (fst (_buy_eth entry s)) == equity_usd s) /\
  (filled (_sell_eth entry s) ->
   exists q, entry = Some q /\
     balance_usd (fst (_sell_eth entry s)) = balance_usd s + q * current_price s /\
     balance_eth (fst (_sell_eth entry s)) = balance_eth s - q /\
     equity_usd (fst (_sell_eth entry s)) == equity_usd s).
Proof.
  split; intros H.
  - destruct (buy_filled_inv _ _ H) as (q & E & _ & _ & Eu & Ee & Ep).
    exists q. repeat split; try assumption.
    unfold equity_usd. rewrite Eu, Ee, Ep. ring.
  - destruct (sell_filled_inv _ _ H) as (q & E & _ & _ & Eu & Ee & Ep).
    exists q. repeat split; try assumption.
    unfold equity_usd. rewrite Eu, Ee, Ep. ring.
Qed.

Lemma equity_is_preserved_witness :
  equity_usd (fst (_buy_eth (Some 0.1) fresh)) == equity_usd fresh /\
  equity_usd (fst (_sell_eth (Some 0.05) (fst (_buy_eth (Some 0.1) fresh))))
  == equity_usd (fst (_buy_eth (Some 0.1) fresh)).
Proof.
  split.
  - destruct (proj1 (equity_is_preserved (Some 0.1) fresh)) as (q & _ & _ & _ & E).
    + left. reflexivity.
    + exact E.
  - destruct (proj2 (equity_is_preserved (Some 0.05) (fst (_buy_eth (Some 0.1) fresh))))
      as (q & _ & _ & _ & E).
    + left. reflexivity.
    + exact E.
Defined.

(** * The concrete scenarios in binary64

    The theorems above idealise floats as rationals.  The concrete runs
    they mention come out the same when every operation is rounded to a
    double. *)

Section Binary64Runs.

Import Binary64.
Local Open Scope float_scope.

(** Buying 0.1 ETH and selling it back at 3500. *)
Example round_trip64 :
  _buy_eth64 (Some 0.1) opening
  = ({| usd := 9650; eth := 0.1; price := 3500 |}, [OrderFilled]) /\
  _sell_eth64 (Some 0.1) {| usd := 9650; eth := 0.1; price := 3500 |}
  = (opening, [OrderFilled]).
Proof. split; reflexivity. Qed.

(** Buying 100 ETH with 10000 USD is refused. *)
Example refused_buy64 :
  _buy_eth64 (Some 100) opening = (opening, [InsufficientBalance]).
Proof. reflexivity. Qed.

(** The two accepted trades that leave a negative balance. *)
Example overdraft64 :
  (snd (_sell_eth64 (Some 1e-12) opening) = [OrderFilled] /\
   PrimFloat.ltb (eth (fst (_sell_eth64 (Some 1e-12) opening))) 0 = true) /\
  (snd (_buy_eth64 (Some 2.857142857143) opening) = [OrderFilled] /\
   PrimFloat.ltb (usd (fst (_buy_eth64 (Some 2.857142857143) opening))) 0 = true).
Proof. repeat split; reflexivity. Qed.

(** A quantity field holding the text nan passes both guards of [_buy_eth],
    since every comparison with nan is false, and the balances become nan.
    The rational model has no such value. *)
Example nan_entry64 :
  snd (_buy_eth64 (Some PrimFloat.nan) opening) = [OrderFilled] /\
  PrimFloat.is_nan (usd (fst (_buy_eth64 (Some PrimFloat.nan) opening))) = true /\
  PrimFloat.is_nan (eth (fst (_buy_eth64 (Some PrimFloat.nan) opening))) = true.
Proof. repeat split; reflexivity. Qed.

(** The raw open of the first candle for [random()] = 0.5005 lies strictly
    between the close 3500.00 and 3500.005: it is above the close and is
    stored as 3500.00. *)
Example first_open64_between :
  PrimFloat.ltb 3500 (first_open64 0.5005) = true /\
  PrimFloat.ltb (first_open64 0.5005) 3500.005 = true.
Proof. split; reflexivity. Qed.

(** Once a balance has overflowed, a buy whose cost overflows too passes
    the guard and leaves [nan]: selling 1 ETH at 1e308 with 1e308 USD held
    gives [inf] USD, and buying 2 ETH then gives [inf - inf]. *)
Example overflow_leaves_nan64 :
  let a := {| usd := 1e308; eth := 1; price := 1e308 |} in
  let b := fst (_sell_eth64 (Some 1%float) a) in
  let c := fst (_buy_eth64 (Some 2%float) b) in
  PrimFloat.eqb (usd b) PrimFloat.infinity = true /\
  snd (_buy_eth64 (Some 2%float) b) = [OrderFilled] /\
  PrimFloat.is_nan (usd c) = true.
Proof. cbv zeta. repeat split; reflexivity. Qed.

End Binary64Runs.

(** * Further properties of the code *)

(** *** The candle history *)

Section History.

Lemma handle_candles (s : Sim) (e : Event) :
  exists new,
    candles (handle s e) = candles s ++ new /\
    List.length new = ticks [e].
Proof.
  destruct e as [z d | entry | entry]; cbn [handle ticks filter List.length].
  - eexists. split; [ reflexivity | reflexivity ].
  - exists []. rewrite app_nil_r. split; [ apply buy_frame | reflexivity ].
  - exists []. rewrite app_nil_r. split; [ apply sell_frame | reflexivity ].
Qed.

Lemma ticks_cons (e : Event) (evs : list Event) :
  ticks (e :: evs) = (ticks [e] + ticks evs)%nat.
Proof. unfold ticks. cbn [filter]. destruct e; reflexivity. Qed.

Lemma fold_handle_candles (evs : list Event) (s : Sim) :
  exists new,
    candles (fold_left handle evs s) = candles s ++ new /\
    List.length new = ticks evs.
Proof.
  revert s. induction evs as [ | e evs IH]; intros s; cbn [fold_left].
  - exists []. now rewrite app_nil_r.
  - destruct (handle_candles s e) as (n1 & E1 & L1).
    destruct (IH (handle s e)) as (n2 & E2 & L2).
    exists (n1 ++ n2). rewrite E2, E1, <- app_assoc. split; [ reflexivity | ].
    rewrite length_app, ticks_cons. lia.
Qed.

Lemma whole_cents_round (x : Q) : whole_cents (round x 2).
Proof. eexists. apply round_2. Qed.

Lemma round_whole_cents (q : Q) : whole_cents q -> round q 2 = q.
Proof. intros [n ->]. apply round_cents. Qed.

Lemma make_candle_in_cents (o c zh zl : Q) : candle_in_cents (make_candle o c zh zl).
Proof. repeat split; apply whole_cents_round. Qed.

Lemma linked_snoc (older : list Candle) (k c : Candle) :
  linked (older ++ [k]) -> open c = close k -> linked ((older ++ [k]) ++ [c]).
Proof.
  intros H E. induction older as [ | a older IH].
  - cbn. auto.
  - destruct older as [ | b older].
    + cbn in *. tauto.
    + cbn [app linked] in *. destruct H as [Hab H]. split; [ assumption | ].
      now apply IH.
Qed.

Lemma linked_nth (cs : list Candle) (i : nat) (a b : Candle) :
  linked cs -> nth_error cs i = Some a -> nth_error cs (S i) = Some b ->
  open b = close a.
Proof.
  revert i. induction cs as [ | x cs IH]; intros i H Ha Hb.
  - destruct i; discriminate.
  - destruct cs as [ | y cs]; [ destruct i; discriminate | ].
    destruct H as [Hxy H]. destruct i as [ | i].
    + cbn in Ha, Hb. now injection Ha as <-; injection Hb as <-.
    + apply (IH i); assumption.
Qed.

Lemma append_next_chain (d : CandleDraws) (s : Sim) (older : list Candle) (k : Candle) :
  whole_cents (current_price s) ->
  Forall candle_in_cents (candles s) -> linked (candles s) ->
  candles s = older ++ [k] ->
  sim_chain (_append_new_candle false d s).
Proof.
  intros Hp Hall Hl E.
  assert (Hk : whole_cents (close k)).
  { rewrite E in Hall. apply Forall_app in Hall as [_ Hk].
    inversion Hk as [ | ? ? (_ & _ & _ & H) _ ]; subst. exact H. }
  unfold sim_chain; cbn [_append_new_candle current_price candles].
  rewrite (next_open_last _ _ _ _ E).
  split; [ assumption | split; [ | split ] ].
  - apply Forall_app; split; [ assumption | ].
    constructor; [ apply make_candle_in_cents | constructor ].
  - rewrite E. apply linked_snoc; [ now rewrite <- E | ].
    cbn [make_candle open]. now apply round_whole_cents.
  - eexists _, _. split; [ reflexivity | ].
    cbn [make_candle close]. now apply round_whole_cents.
Qed.

Lemma tick_chain_from (z : Q) (d : CandleDraws) (s : Sim) (older : list Candle) (k : Candle) :
  Forall candle_in_cents (candles s) -> linked (candles s) ->
  candles s = older ++ [k] ->
  sim_chain (_tick z d s).
Proof.
  intros Hall Hl E. unfold _tick.
  apply (append_next_chain d _ older k); cbn [_simulate_next_price current_price candles];
    try assumption.
  apply whole_cents_round.
Qed.

Lemma tick_chain (z : Q) (d : CandleDraws) (s : Sim) : sim_chain s -> sim_chain (_tick z d s).
Proof.
  intros (_ & Hall & Hl & older & k & E & _).
  now apply (tick_chain_from z d s older k).
Qed.

Lemma init_chain (d0 : CandleDraws) (z1 : Q) (d1 : CandleDraws) :
  sim_chain (__init__ d0 z1 d1).
Proof.
  unfold __init__.
  apply (tick_chain_from z1 d1 _ [] (make_candle (next_open true (r_open d0) fresh)
                                       (current_price fresh) (z_high d0) (z_low d0))).
  - constructor; [ apply make_candle_in_cents | constructor ].
  - exact I.
  - reflexivity.
Qed.

Lemma handle_chain (s : Sim) (e : Event) : sim_chain s -> sim_chain (handle s e).
Proof.
  intros H. destruct e as [z d | entry | entry]; cbn [handle].
  - now apply tick_chain.
  - destruct (buy_frame entry s) as [Ep Ec]. unfold sim_chain. now rewrite Ep, Ec.
  - destruct (sell_frame entry s) as [Ep Ec]. unfold sim_chain. now rewrite Ep, Ec.
Qed.

Lemma fold_handle_chain (evs : list Event) (s : Sim) :
  sim_chain s -> sim_chain (fold_left handle evs s).
Proof.
  revert s. induction evs as [ | e evs IH]; intros s H; cbn [fold_left].
  - assumption.
  - apply IH. now apply handle_chain.
Qed.

Lemma run_chain (d0 : CandleDraws) (z1 : Q) (d1 : CandleDraws) (evs : list Event) :
  sim_chain (run d0 z1 d1 evs).
Proof. unfold run. apply fold_handle_chain, init_chain. Qed.

End History.

(** *** The price step *)

Section PriceStep.

Lemma step_pct_mono (p z1 z2 : Q) :
  0 <= p -> z1 <= z2 ->
  p * (1 + gauss DRIFT VOLATILITY z1) <= p * (1 + gauss DRIFT VOLATILITY z2).
Proof.
  intros Hp Hz. unfold gauss, DRIFT, VOLATILITY.
  assert (H : 0 <= p * (z2 - z1)) by (apply Qmult_le_0_compat; lra).
  lra.
Qed.

End PriceStep.

(** *** The window *)

Section WindowMore.

Lemma last_n_all {A : Type} (k : nat) (l : list A) :
  (List.length l <= k)%nat -> last_n k l = l.
Proof.
  intros H. unfold last_n.
  replace (List.length l - k)%nat with 0%nat by lia. reflexivity.
Qed.

Lemma fold_max_upper (tl : list Q) (x y : Q) :
  y = x \/ In y tl -> y <= fold_left Qmax tl x.
Proof.
  revert x. induction tl as [ | t tl IH]; intros x [E | H]; cbn [fold_left].
  - subst. lra.
  - destruct H.
  - subst. pose proof (fold_max_ge tl (Qmax x t)).
    pose proof (Q.le_max_l x t). lra.
  - destruct H as [E | H].
    + subst. pose proof (fold_max_ge tl (Qmax x y)).
      pose proof (Q.le_max_r x y). lra.
    + apply IH. now right.
Qed.

Lemma fold_min_lower (tl : list Q) (x y : Q) :
  y = x \/ In y tl -> fold_left Qmin tl x <= y.
Proof.
  revert x. induction tl as [ | t tl IH]; intros x [E | H]; cbn [fold_left].
  - subst. lra.
  - destruct H.
  - subst. pose proof (fold_min_le tl (Qmin x t)).
    pose proof (Q.le_min_l x t). lra.
  - destruct H as [E | H].
    + subst. pose proof (fold_min_le tl (Qmin x y)).
      pose proof (Q.le_min_r x y). lra.
    + apply IH. now right.
Qed.

End WindowMore.

(** *** The vertical scale *)

Section Scale.

Variables top bot : Q.
Hypothesis span : bot < top.

Lemma yfrom_row (price : Q) : yfrom chart_h top bot price = Ok (row top bot price).
Proof. now apply yfrom_ok. Qed.







End Scale.

(** *** The whole redraw *)

Section Redraw.

Lemma window_size_constants (len : nat) :
  window_size chart_w step len = Nat.min 90 len.
Proof. unfold window_size. change (chart_w / step)%Z with 90%Z. lia. Qed.

End Redraw.

(** *** More on trades *)

Section TradesMore.

Lemma buy_equity (entry : option Q) (s : Sim) :
  equity_usd (fst (_buy_eth entry s)) == equity_usd s.
Proof.
  destruct (buy_spec entry s); cbn [fst]; try reflexivity.
  unfold equity_usd; cbn [balance_usd balance_eth current_price]. ring.
Qed.

Lemma sell_equity (entry : option Q) (s : Sim) :
  equity_usd (fst (_sell_eth entry s)) == equity_usd s.
Proof.
  destruct (sell_spec entry s); cbn [fst]; try reflexivity.
  unfold equity_usd; cbn [balance_usd balance_eth current_price]. ring.
Qed.

Lemma buy_prev (entry : option Q) (s : Sim) :
  prev_price (fst (_buy_eth entry s)) = prev_price s.
Proof. now destruct (buy_spec entry s). Qed.

Lemma sell_prev (entry : option Q) (s : Sim) :
  prev_price (fst (_sell_eth entry s)) = prev_price s.
Proof. now destruct (sell_spec entry s). Qed.

Lemma buy_filled_of (q : Q) (s : Sim) :
  0 < q -> q * current_price s <= balance_usd s + eps_usd ->
  _buy_eth (Some q) s
  = ({| balance_usd := balance_usd s - q * current_price s;
        balance_eth := balance_eth s + q;
        current_price := current_price s;
        prev_price := prev_price s;
        candles := candles s |}, [OrderFilled]).
Proof.
  intros Hq Hc.
  destruct (buy_spec (Some q) s) as [ [C | (q' & E & Hq')] | q' E _ Hs | q' E _ _ ].
  - discriminate.
  - injection E as <-. lra.
  - injection E as <-. lra.
  - injection E as <-. reflexivity.
Qed.

Lemma sell_filled_of (q : Q) (s : Sim) :
  0 < q -> q <= balance_eth s + eps_eth ->
  _sell_eth (Some q) s
  = ({| balance_usd := balance_usd s + q * current_price s;
        balance_eth := balance_eth s - q;
        current_price := current_price s;
        prev_price := prev_price s;
        candles := candles s |}, [OrderFilled]).
Proof.
  intros Hq Hc.
  destruct (sell_spec (Some q) s) as [ [C | (q' & E & Hq')] | q' E _ Hs | q' E _ _ ].
  - discriminate.
  - injection E as <-. lra.
  - injection E as <-. lra.
  - injection E as <-. reflexivity.
Qed.

Lemma trades_equity (evs : list Event) (s : Sim) :
  Forall is_trade evs ->
  equity_usd (fold_left handle evs s) == equity_usd s /\
  current_price (fold_left handle evs s) = current_price s /\
  candles (fold_left handle evs s) = candles s.
Proof.
  intros H. revert s. induction H as [ | e evs He _ IH]; intros s; cbn [fold_left].
  - repeat split; reflexivity.
  - destruct (IH (handle s e)) as (E1 & E2 & E3).
    rewrite E1, E2, E3. destruct e as [z d | entry | entry]; cbn [handle is_trade] in *.
    + contradiction.
    + destruct (buy_frame entry s) as [Ep Ec]. rewrite buy_equity. now repeat split.
    + destruct (sell_frame entry s) as [Ep Ec]. rewrite sell_equity. now repeat split.
Qed.

Lemma run_price_ge_1 (d0 : CandleDraws) (z1 : Q) (d1 : CandleDraws) (evs : list Event) :
  1 <= current_price (run d0 z1 d1 evs).
Proof.
  unfold run.
  assert (H : 1 <= current_price (__init__ d0 z1 d1)) by apply simulate_price_ok.
  revert H. generalize (__init__ d0 z1 d1).
  induction evs as [ | e evs IH]; intros s H; cbn [fold_left]; [ assumption | ].
  apply IH. destruct e as [z d | entry | entry]; cbn [handle].
  - apply simulate_price_ok.
  - now rewrite (proj1 (buy_frame entry s)).
  - now rewrite (proj1 (sell_frame entry s)).
Qed.

End TradesMore.

(** *** The balance view *)

Section View.

Lemma set_view_valid (mode view : string) :
  view = "USD"%string \/ view = "ETH"%string ->
  _set_balance_view mode view = "USD"%string \/
  _set_balance_view mode view = "ETH"%string.
Proof.
  intros H. unfold _set_balance_view.
  destruct (String.eqb_spec mode "USD"); [ now left | ].
  destruct (String.eqb_spec mode "ETH"); [ now right | ].
  exact H.
Qed.

Lemma fold_set_view_valid (modes : list string) (view : string) :
  view = "USD"%string \/ view = "ETH"%string ->
  let v := fold_left (fun v m => _set_balance_view m v) modes view in
  v = "USD"%string \/ v = "ETH"%string.
Proof.
  revert view. induction modes as [ | m modes IH]; intros view H; cbn [fold_left].
  - exact H.
  - apply IH. now apply set_view_valid.
Qed.

End View.

(** * Further theorems *)

(** X1. The candle history is append-only: an event leaves the stored
    candles in place and adds one candle at the end when it is a tick, none
    when it is a trade.  The constructor leaves two candles, so the history
    holds two candles plus one per tick. *)
Theorem history_is_append_only
  (d0 : CandleDraws) (z1 : Q) (d1 : CandleDraws) (evs : list Event) (e : Event) :
  let s := run d0 z1 d1 evs in
  (exists new, candles (handle s e) = candles s ++ new /\
               List.length new = ticks [e]) /\
  List.length (candles s) = (2 + ticks evs)%nat.
Proof.
  cbv zeta. split; [ apply handle_candles | ].
  unfold run. destruct (fold_handle_candles evs (__init__ d0 z1 d1)) as (new & E & L).
  rewrite E, length_app, L. reflexivity.
Qed.

(** X2. In every reachable state each candle opens exactly where the
    candle before it closed. *)
Theorem candle_opens_at_previous_close
  (d0 : CandleDraws) (z1 : Q) (d1 : CandleDraws) (evs : list Event)
  (i : nat) (a b : Candle) :
  nth_error (candles (run d0 z1 d1 evs)) i = Some a ->
  nth_error (candles (run d0 z1 d1 evs)) (S i) = Some b ->
  open b = close a.
Proof.
  destruct (run_chain d0 z1 d1 evs) as (_ & _ & H & _). now apply linked_nth.
Qed.

Lemma candle_opens_at_previous_close_witness :
  exists a b,
    nth_error (candles (run draws_a 1 draws_b [Tick (-1) draws_a])) 1 = Some a /\
    nth_error (candles (run draws_a 1 draws_b [Tick (-1) draws_a])) 2 = Some b /\
    open b = close a.
Proof.
  do 2 eexists. split; [ reflexivity | split; [ reflexivity | ] ].
  apply (candle_opens_at_previous_close draws_a 1 draws_b [Tick (-1) draws_a] 1);
    reflexivity.
Defined.

(** X3. In every reachable state the last candle closes exactly at the
    current price, and that price is at least 1. *)
Theorem last_close_is_current_price
  (d0 : CandleDraws) (z1 : Q) (d1 : CandleDraws) (evs : list Event) :
  let s := run d0 z1 d1 evs in
  (exists older k, candles s = older ++ [k] /\ close k = current_price s) /\
  1 <= current_price s.
Proof.
  cbv zeta. destruct (run_chain d0 z1 d1 evs) as (_ & _ & _ & H).
  split; [ exact H | apply run_price_ge_1 ].
Qed.

(** X4. In every reachable state the current price and the four stored
    fields of every candle are whole numbers of cents. *)
Theorem stored_values_are_whole_cents
  (d0 : CandleDraws) (z1 : Q) (d1 : CandleDraws) (evs : list Event) :
  whole_cents (current_price (run d0 z1 d1 evs)) /\
  Forall candle_in_cents (candles (run d0 z1 d1 evs)).
Proof.
  destruct (run_chain d0 z1 d1 evs) as (H1 & H2 & _). now split.
Qed.

(** X5. A tick in a reachable state leaves both balances alone, remembers
    the old price in [prev_price], and appends a candle that opens at the
    old price, closes at the new price and is green exactly when the price
    did not fall. *)
Theorem tick_candle_records_the_move
  (d0 : CandleDraws) (z1 : Q) (d1 : CandleDraws) (evs : list Event)
  (z : Q) (d : CandleDraws) :
  let s := run d0 z1 d1 evs in
  let s' := _tick z d s in
  balance_usd s' = balance_usd s /\ balance_eth s' = balance_eth s /\
  prev_price s' = Some (current_price s) /\
  exists k, candles s' = candles s ++ [k] /\
    open k = current_price s /\ close k = current_price s' /\
    (color k = GREEN <-> current_price s <= current_price s').
Proof.
  cbv zeta. destruct (run_chain d0 z1 d1 evs) as (_ & Hall & _ & older & k0 & E & Ek0).
  split; [ reflexivity | split; [ reflexivity | split; [ reflexivity | ] ] ].
  eexists. split; [ reflexivity | ].
  assert (En : next_open false (r_open d) (_simulate_next_price z (run d0 z1 d1 evs))
               = close k0) by now apply (next_open_last _ _ k0 older).
  rewrite En, Ek0.
  assert (Hw : whole_cents (current_price (run d0 z1 d1 evs))).
  { apply (run_chain d0 z1 d1 evs). }
  cbn [make_candle open close color _tick _append_new_candle current_price].
  split; [ now apply round_whole_cents | split ].
  - apply round_whole_cents, whole_cents_round.
  - apply make_candle_color with (zh := 0) (zl := 0).
Qed.

(** X6. When the random step would take the price to 1.0 or below, the new
    price is exactly 1.0. *)
Theorem price_step_stops_at_floor (z : Q) (s : Sim) :
  current_price s * (1 + gauss DRIFT VOLATILITY z) <= 1 ->
  current_price (_simulate_next_price z s) == 1.
Proof.
  intros H. cbn [_simulate_next_price current_price].
  rewrite (round_comp 2 _ 1); [ reflexivity | ].
  now apply Q.max_l.
Qed.

Lemma price_step_stops_at_floor_witness :
  current_price (_simulate_next_price (-200) fresh) == 1.
Proof.
  apply price_step_stops_at_floor. apply Qle_bool_iff. reflexivity.
Defined.

(** X7. For a nonnegative current price the new price grows with the
    gaussian draw: a larger draw never gives a smaller price. *)
Theorem price_step_is_monotone (z1 z2 : Q) (s : Sim) :
  0 <= current_price s -> z1 <= z2 ->
  current_price (_simulate_next_price z1 s)
  <= current_price (_simulate_next_price z2 s).
Proof.
  intros Hp Hz. cbn [_simulate_next_price current_price].
  apply round_mono, Q.max_le_compat_l. now apply step_pct_mono.
Qed.

Lemma price_step_is_monotone_witness :
  current_price (_simulate_next_price (-1) fresh)
  <= current_price (_simulate_next_price 2 fresh).
Proof.
  apply price_step_is_monotone; apply Qle_bool_iff; reflexivity.
Defined.

(** X8. The first candle stays at the head of the history; it closes at
    the initial price 3500 and its open lies within 0.1 percent of it. *)
Theorem first_candle_is_near_initial_price
  (d0 : CandleDraws) (z1 : Q) (d1 : CandleDraws) (evs : list Event) :
  unit_draw (r_open d0) ->
  exists first later,
    candles (run d0 z1 d1 evs) = first :: later /\
    3496.5 <= open first /\ open first <= 3503.5 /\ close first == 3500.
Proof.
  intros [Hr0 Hr1]. unfold run.
  destruct (fold_handle_candles evs (__init__ d0 z1 d1)) as (new & E & _).
  eexists _, _. split; [ rewrite E; reflexivity | ].
  cbn [make_candle open close next_open fresh current_price candles rev app].
  assert (Hlo : 3496.5 <= 3500 * (1 + uniform (-0.001) 0.001 (r_open d0)))
    by (unfold uniform; lra).
  assert (Hhi : 3500 * (1 + uniform (-0.001) 0.001 (r_open d0)) <= 3503.5)
    by (unfold uniform; lra).
  apply round_mono in Hlo. apply round_mono in Hhi.
  assert (E1 : round 3496.5 2 == 3496.5) by reflexivity.
  assert (E2 : round 3503.5 2 == 3503.5) by reflexivity.
  split; [ lra | split; [ lra | reflexivity ] ].
Qed.

Lemma first_candle_is_near_initial_price_witness :
  exists first later,
    candles (run draws_a 1 draws_b [Tick (-1) draws_a]) = first :: later /\
    3496.5 <= open first /\ open first <= 3503.5 /\ close first == 3500.
Proof.
  apply first_candle_is_near_initial_price. unfold unit_draw; cbn; lra.
Defined.

(** X9. With the class constants the window never holds more than 90
    candles, and a history of at most 90 candles is shown whole. *)
Theorem short_history_is_shown_whole (history : list Candle) :
  exists w,
    visible chart_w step history = Ok w /\
    List.length w = Nat.min 90 (List.length history) /\
    ((List.length history <= 90)%nat -> w = history).
Proof.
  exists (last_n (Nat.min 90 (List.length history)) history).
  split; [ | split ].
  - rewrite (visible_spec chart_w step history) by discriminate.
    now rewrite window_size_constants.
  - apply last_n_length. lia.
  - intros H. apply last_n_all. lia.
Qed.

Lemma short_history_is_shown_whole_witness :
  visible chart_w step (repeat (flat 100) 5) = Ok (repeat (flat 100) 5).
Proof.
  destruct (short_history_is_shown_whole (repeat (flat 100) 5)) as (w & E & _ & H).
  rewrite E. f_equal. apply H. cbn. lia.
Defined.



(** X17. Selling exactly the ETH balance goes through and leaves no ETH;
    at a positive price, buying for exactly the USD balance goes through
    and leaves no USD. *)
Theorem trading_the_whole_balance_empties_it (s : Sim) :
  (0 < balance_eth s ->
   filled (_sell_eth (Some (balance_eth s)) s) /\
   balance_eth (fst (_sell_eth (Some (balance_eth s)) s)) == 0 /\
   balance_usd (fst (_sell_eth (Some (balance_eth s)) s))
   == balance_usd s + balance_eth s * current_price s) /\
  (0 < balance_usd s -> 0 < current_price s ->
   filled (_buy_eth (Some (balance_usd s / current_price s)) s) /\
   balance_usd (fst (_buy_eth (Some (balance_usd s / current_price s)) s)) == 0 /\
   balance_eth (fst (_buy_eth (Some (balance_usd s / current_price s)) s))
   == balance_eth s + balance_usd s / current_price s).
Proof.
  split.
  - intros He.
    rewrite (sell_filled_of (balance_eth s) s) by (unfold eps_eth; lra).
    cbn [fst snd balance_usd balance_eth]. split; [ now left | split; ring ].
  - intros Hu Hp.
    assert (Ec : balance_usd s / current_price s * current_price s == balance_usd s)
      by (field; lra).
    assert (Hq : 0 < balance_usd s / current_price s).
    { apply Qlt_shift_div_l; lra. }
    rewrite (buy_filled_of _ s Hq) by (rewrite Ec; unfold eps_usd; lra).
    cbn [fst snd balance_usd balance_eth].
    split; [ now left | split; [ rewrite Ec; ring | reflexivity ] ].
Qed.

Lemma trading_the_whole_balance_empties_it_witness :
  balance_usd (fst (_buy_eth (Some (balance_usd fresh / current_price fresh)) fresh)) == 0.
Proof.
  destruct (trading_the_whole_balance_empties_it fresh) as [_ H].
  apply H; reflexivity.
Defined.

(** X18. Between two ticks, any sequence of buys and sells, accepted or
    refused, leaves the equity [balance_usd + balance_eth * current_price]
    unchanged and touches neither the price nor the candle history. *)
Theorem trades_between_ticks_keep_equity (evs : list Event) (s : Sim) :
  Forall is_trade evs ->
  equity_usd (fold_left handle evs s) == equity_usd s /\
  current_price (fold_left handle evs s) = current_price s /\
  candles (fold_left handle evs s) = candles s.
Proof. apply trades_equity. Qed.

Lemma trades_between_ticks_keep_equity_witness :
  equity_usd (fold_left handle [Buy (Some 2); Sell (Some 0.5); Buy None; Sell (Some 9)] fresh)
  == equity_usd fresh.
Proof.
  apply (trades_between_ticks_keep_equity
           [Buy (Some 2); Sell (Some 0.5); Buy None; Sell (Some 9)] fresh).
  repeat constructor.
Defined.

(** X19. [_set_balance_view] takes the mode over when it is "USD" or "ETH"
    and ignores any other text, so after any sequence of calls the view,
    which starts as "USD", is "USD" or "ETH". *)
Theorem balance_view_stays_valid (modes : list string) :
  let view := fold_left (fun v m => _set_balance_view m v) modes "USD"%string in
  (view = "USD"%string \/ view = "ETH"%string) /\
  (forall m v, m <> "USD"%string -> m <> "ETH"%string -> _set_balance_view m v = v) /\
  (forall v, _set_balance_view "USD" v = "USD"%string /\
             _set_balance_view "ETH" v = "ETH"%string).
Proof.
  cbv zeta. split; [ apply fold_set_view_valid; now left | split ].
  - intros m v H1 H2. unfold _set_balance_view.
    apply String.eqb_neq in H1, H2. now rewrite H1, H2.
  - intros v. split; reflexivity.
Qed.

Lemma balance_view_stays_valid_witness :
  fold_left (fun v m => _set_balance_view m v) ["ETH"; "BTC"; ""]%string "USD"%string
  = "ETH"%string.
Proof.
  destruct (balance_view_stays_valid ["ETH"; "BTC"; ""]%string) as (_ & H & _).
  cbn [fold_left]. rewrite !H by discriminate. reflexivity.
Defined.


(** * Proofs with rounding *)

(** *** Consequences of round-to-nearest *)

Section RoundingFacts.

Context (fl : Q -> Q) {R : Rounding fl}.

Lemma fl_zero : fl 0 == 0.
Proof. apply (fl_int 0). discriminate. Qed.

Lemma fl_one : fl 1 == 1.
Proof. apply (fl_int 1). discriminate. Qed.

Lemma fl_nonneg (x : Q) : 0 <= x -> 0 <= fl x.
Proof. intros H. apply fl_mono in H. rewrite fl_zero in H. exact H. Qed.

Lemma fl_above (x f : Q) : is_float fl f -> f <= x -> f <= fl x.
Proof. intros Hf H. apply fl_mono in H. unfold is_float in Hf. lra. Qed.

Lemma fl_below (x f : Q) : is_float fl f -> x <= f -> fl x <= f.
Proof. intros Hf H. apply fl_mono in H. unfold is_float in Hf. lra. Qed.

(** Rounding moves a value no further than the distance to any float. *)
Lemma fl_close (x f d : Q) :
  is_float fl f -> - d <= f - x -> f - x <= d -> x - d <= fl x /\ fl x <= x + d.
Proof.
  intros Hf Hlo Hhi.
  assert (Hd : Qabs (f - x) <= d) by (apply Qabs_Qle_condition; split; assumption).
  pose proof (fl_nearest x f Hf) as Hn.
  assert (Hx : Qabs (fl x - x) <= d) by lra.
  apply Qabs_Qle_condition in Hx. destruct Hx. split; lra.
Qed.

(** Adding a tolerance to a float balance gains at most twice the tolerance. *)
Lemma fl_tolerance (b e : Q) : is_float fl b -> 0 <= e -> fl (b + e) <= b + 2 * e.
Proof.
  intros Hb He. destruct (fl_close (b + e) b e Hb); lra.
Qed.

Lemma fl_literal (e : Q) : 0 <= e -> 0 <= fl e /\ fl e <= 2 * e.
Proof.
  intros He. split; [ now apply fl_nonneg | ].
  destruct (fl_close e 0 e fl_zero); lra.
Qed.

Lemma inject_Z_pred (n : Z) : inject_Z (n - 1) == inject_Z n - 1.
Proof. unfold Z.sub. rewrite inject_Z_plus. reflexivity. Qed.

Lemma is_float_Z (n : Z) : (Z.abs n <= 2 ^ 53)%Z -> is_float fl (inject_Z n).
Proof. apply fl_int. Qed.

Lemma in_limit_ceiling (x : Q) :
  - price_limit <= x -> x <= price_limit ->
  (Z.abs (Qceiling x - 1) <= 2 ^ 53)%Z.
Proof.
  unfold price_limit. intros Hlo Hhi.
  apply Qceiling_resp_le in Hhi. rewrite Qceiling_Z in Hhi.
  assert (Hlo' : inject_Z (- (2 ^ 53 - 2)) <= x) by (rewrite inject_Z_opp; exact Hlo).
  apply Qceiling_resp_le in Hlo'. rewrite Qceiling_Z in Hlo'. lia.
Qed.

Lemma in_limit_floor (x : Q) :
  - price_limit <= x -> x <= price_limit ->
  (Z.abs (Qfloor x + 1) <= 2 ^ 53)%Z.
Proof.
  unfold price_limit. intros Hlo Hhi.
  apply Qfloor_resp_le in Hhi. rewrite Qfloor_Z in Hhi.
  assert (Hlo' : inject_Z (- (2 ^ 53 - 2)) <= x) by (rewrite inject_Z_opp; exact Hlo).
  apply Qfloor_resp_le in Hlo'. rewrite Qfloor_Z in Hlo'. lia.
Qed.

(** Below the limit, adding at least 1 reaches the next integer, and taking
    away at least 1 reaches the one before. *)
Lemma fl_plus_pad (x p : Q) :
  - price_limit <= x -> x <= price_limit -> 1 <= p ->
  inject_Z (Qfloor x + 1) <= fl (x + p) /\ x < inject_Z (Qfloor x + 1).
Proof.
  intros Hlo Hhi Hp.
  pose proof (Qlt_floor x) as Hn. pose proof (Qfloor_le x) as Hf.
  split; [ | exact Hn ].
  apply fl_above; [ apply is_float_Z; now apply in_limit_floor | ].
  rewrite inject_Z_succ. lra.
Qed.

Lemma fl_minus_pad (x p : Q) :
  - price_limit <= x -> x <= price_limit -> 1 <= p ->
  fl (x - p) <= inject_Z (Qceiling x - 1) /\ inject_Z (Qceiling x - 1) < x.
Proof.
  intros Hlo Hhi Hp.
  pose proof (Qceiling_lt x) as Hn. pose proof (Qle_ceiling x) as Hc.
  split; [ | exact Hn ].
  apply fl_below; [ apply is_float_Z; now apply in_limit_ceiling | ].
  rewrite inject_Z_pred. lra.
Qed.

End RoundingFacts.

(** *** Exact arithmetic is one rounding *)

#[export] Instance exact_rounding : Rounding (fun x => x).
Proof.
  split; unfold is_float; intros; try reflexivity; try assumption.
  setoid_replace (x - x) with 0 by ring. apply Qabs_nonneg.
Qed.

(** With no rounding the rounded methods are the exact ones. *)
Lemma buy_fl_exact (entry : option Q) (s : Sim) :
  _buy_eth_fl (fun x => x) entry s = _buy_eth entry s.
Proof. reflexivity. Qed.

Lemma sell_fl_exact (entry : option Q) (s : Sim) :
  _sell_eth_fl (fun x => x) entry s = _sell_eth entry s.
Proof. reflexivity. Qed.

Lemma yfrom_fl_exact (h : Z) (top bot price : Q) :
  yfrom_fl (fun x => x) h top bot price = yfrom h top bot price.
Proof.
  unfold yfrom_fl, yfrom, truediv. destruct (Qeq_bool (top - bot) 0); reflexivity.
Qed.

(** *** The price bounds with rounding *)

Section RoundedBounds.

Context (fl : Q -> Q) {R : Rounding fl}.

Lemma fold_max_lub (tl : list Q) (x B : Q) :
  x <= B -> Forall (fun y => y <= B) tl -> fold_left Qmax tl x <= B.
Proof.
  intros Hx H. revert x Hx. induction H as [ | y tl Hy _ IH]; intros x Hx; cbn [fold_left].
  - exact Hx.
  - apply IH. now apply Q.max_lub.
Qed.

Lemma fold_min_glb (tl : list Q) (x B : Q) :
  B <= x -> Forall (fun y => B <= y) tl -> B <= fold_left Qmin tl x.
Proof.
  intros Hx H. revert x Hx. induction H as [ | y tl Hy _ IH]; intros x Hx; cbn [fold_left].
  - exact Hx.
  - apply IH. now apply Q.min_glb.
Qed.

Lemma price_bounds_eq (c : Candle) (rest : list Candle) :
  exists all_high all_low,
    max_of (map high (c :: rest)) = Some all_high /\
    min_of (map low (c :: rest)) = Some all_low /\
    (forall k, In k (c :: rest) -> high k <= all_high /\ all_low <= low k) /\
    price_bounds fl (c :: rest)
    = Ok (fl (all_high + window_padding fl all_high all_low),
          Qmax (fl 0.1) (fl (all_low - window_padding fl all_high all_low))).
Proof.
  exists (fold_left Qmax (map high rest) (high c)),
         (fold_left Qmin (map low rest) (low c)).
  repeat split; try reflexivity.
  - apply fold_max_upper. destruct H as [-> | H]; [ now left | right; now apply in_map ].
  - apply fold_min_lower. destruct H as [-> | H]; [ now left | right; now apply in_map ].
Qed.

Lemma price_bounds_apart (data : list Candle) :
  data <> [] -> Forall well_formed data -> Forall in_range data ->
  exists top bot all_high,
    price_bounds fl data = Ok (top, bot) /\
    max_of (map high data) = Some all_high /\
    all_high < top /\ bot + (4 # 5) <= top /\ fl 0.1 <= bot /\
    forall k, In k data -> high k < top /\ (bot < low k \/ bot == fl 0.1).
Proof.
  intros Hne Hwf Hin. destruct data as [ | c rest]; [ congruence | ].
  destruct (price_bounds_eq c rest) as (ah & al & Eh & El & Hall & E).
  destruct (Hall c (or_introl eq_refl)) as [Hch Hcl].
  assert (Hc : 0 < high c /\ low c <= high c).
  { inversion Hwf as [ | ? ? (Ho & _ & Hlo & Hhi) _ ]; subst.
    pose proof (Q.le_max_l (open c) (close c)). pose proof (Q.le_min_l (open c) (close c)).
    split; lra. }
  assert (Hah : ah <= price_limit).
  { cbn [max_of map] in Eh. injection Eh as <-.
    inversion Hin as [ | ? ? [_ H0] Hr ]; subst.
    apply fold_max_lub; [ exact H0 | ].
    apply Forall_map. eapply Forall_impl; [ | exact Hr ]. now intros k [_ Hk]. }
  assert (Hal : - price_limit <= al).
  { cbn [min_of map] in El. injection El as <-.
    inversion Hin as [ | ? ? [H0 _] Hr ]; subst.
    apply fold_min_glb; [ exact H0 | ].
    apply Forall_map. eapply Forall_impl; [ | exact Hr ]. now intros k [Hk _]. }
  assert (Hlim : 0 < price_limit) by reflexivity.
  assert (Hp : 1 <= window_padding fl ah al) by apply Q.le_max_l.
  destruct (fl_plus_pad fl ah (window_padding fl ah al)) as [Hn1 Hn2]; try lra.
  destruct (fl_minus_pad fl al (window_padding fl ah al)) as [Hm1 Hm2]; try lra.
  assert (Hnm : inject_Z (Qceiling al - 1) + 1 <= inject_Z (Qfloor ah + 1)).
  { rewrite <- inject_Z_succ, <- Zle_Qle.
    assert (Hlt : inject_Z (Qceiling al - 1) < inject_Z (Qfloor ah + 1)) by lra.
    rewrite <- Zlt_Qlt in Hlt. lia. }
  assert (Hn0 : 1 <= inject_Z (Qfloor ah + 1)).
  { rewrite inject_Z_succ.
    assert (H0 : 0 <= ah) by lra. apply Qfloor_resp_le in H0.
    change (Qfloor 0) with 0%Z in H0. rewrite Zle_Qle in H0. change (inject_Z 0) with 0 in H0.
    lra. }
  destruct (fl_literal fl 0.1) as [_ Hlit]; [ lra | ].
  exists (fl (ah + window_padding fl ah al)),
         (Qmax (fl 0.1) (fl (al - window_padding fl ah al))), ah.
  split; [ exact E | split; [ exact Eh | ] ].
  split; [ lra | split; [ | split; [ apply Q.le_max_l | ] ] ].
  - destruct (Q.max_spec (fl 0.1) (fl (al - window_padding fl ah al))) as [[_ ->] | [_ ->]]; lra.
  - intros k Hk. destruct (Hall k Hk) as [Hkh Hkl].
    split; [ lra | ].
    destruct (Q.max_spec (fl 0.1) (fl (al - window_padding fl ah al))) as [[_ Eb] | [_ Eb]].
    + left. rewrite Eb. lra.
    + right. exact Eb.
Qed.

Lemma span_fl_pos (top bot : Q) : bot + (4 # 5) <= top -> 0 < fl (top - bot).
Proof.
  intros Hspan.
  assert (H1 : (4 # 5) <= top - bot) by lra. apply (fl_mono _ _) in H1.
  destruct (fl_close fl (4 # 5) 1 (1 # 5) (fl_one fl)); lra.
Qed.

Lemma yfrom_fl_ok (h : Z) (top bot price : Q) :
  bot + (4 # 5) <= top -> exists y, yfrom_fl fl h top bot price = Ok y.
Proof.
  intros Hspan. unfold yfrom_fl.
  assert (Hd : (3 # 5) <= fl (top - bot)).
  { assert (H1 : (4 # 5) <= top - bot) by lra. apply (fl_mono _ _) in H1.
    destruct (fl_close fl (4 # 5) 1 (1 # 5) (fl_one fl)); lra. }
  destruct (Qeq_bool (fl (top - bot)) 0) eqn:E.
  - apply Qeq_bool_iff in E. lra.
  - eexists. reflexivity.
Qed.

Lemma compute_window_apart (w st : Z) (history : list Candle) :
  st <> 0%Z -> history <> [] ->
  Forall well_formed history -> Forall in_range history ->
  exists win all_high,
    compute_window fl w st history = Ok (Some win) /\
    data win = last_n (window_size w st (List.length history)) history /\
    data win <> [] /\
    max_of (map high (data win)) = Some all_high /\
    all_high < top_price win /\
    bot_price win + (4 # 5) <= top_price win /\
    fl 0.1 <= bot_price win /\
    forall k, In k (data win) ->
      high k < top_price win /\ (bot_price win < low k \/ bot_price win == fl 0.1).
Proof.
  intros Hst Hne Hwf Hin.
  set (n := window_size w st (List.length history)).
  assert (Hn : (1 <= n)%nat).
  { subst n. unfold window_size. destruct history; [ congruence | cbn [List.length]; lia ]. }
  assert (Hd : last_n n history <> []) by now apply last_n_cons_nonempty.
  destruct (last_n_suffix n history) as [older Eo].
  assert (Hdw : Forall well_formed (last_n n history)).
  { rewrite Eo in Hwf. now apply Forall_app in Hwf. }
  assert (Hdi : Forall in_range (last_n n history)).
  { rewrite Eo in Hin. now apply Forall_app in Hin. }
  destruct (price_bounds_apart _ Hd Hdw Hdi) as (top & bot & ah & Eb & Eh & H1 & H2 & H3 & H4).
  exists {| data := last_n n history; top_price := top; bot_price := bot |}, ah.
  repeat split; try assumption; try (now apply H4).
  unfold compute_window. destruct history as [ | c rest]; [ congruence | ].
  rewrite (visible_spec _ _ _ Hst). cbn [bind]. fold n. now rewrite Eb.
Qed.

End RoundedBounds.

(** *** Rounding to the nearest integer is another one *)

#[export] Instance integer_rounding : Rounding nearest_integer.
Proof.
  split; unfold is_float, nearest_integer.
  - intros x y E. now rewrite (round_half_even_comp _ _ E).
  - intros x y H. rewrite <- Zle_Qle. now apply round_half_even_mono.
  - intros x. now rewrite round_half_even_Z.
  - intros x f Hf.
    destruct (round_half_even_near x) as [N1 N2].
    set (n := round_half_even x) in *. set (m := round_half_even f) in *.
    assert (Hx : Qabs (inject_Z n - x) <= 1 # 2).
    { apply Qabs_Qle_condition. split; lra. }
    destruct (Z.eq_dec m n) as [E | D].
    + rewrite <- Hf, E. apply Qle_refl.
    + apply Qle_trans with (1 # 2); [ exact Hx | ].
      destruct (Z_lt_le_dec m n) as [L | G].
      * assert (H1 : (m + 1 <= n)%Z) by lia.
        rewrite Zle_Qle, inject_Z_succ in H1.
        rewrite <- Qabs_opp. apply Qle_trans with (- (f - x)); [ lra | apply Qle_Qabs ].
      * assert (H1 : (n + 1 <= m)%Z) by lia.
        rewrite Zle_Qle, inject_Z_succ in H1.
        apply Qle_trans with (f - x); [ lra | apply Qle_Qabs ].
  - intros n _. now rewrite round_half_even_Z.
  - intros x Hf.
    assert (E : - x == inject_Z (- round_half_even x)) by (rewrite inject_Z_opp; lra).
    rewrite (round_half_even_comp _ _ E), round_half_even_Z. lra.
  - intros x Hf.
    assert (E : 2 * x == inject_Z (2 * round_half_even x))
      by (rewrite inject_Z_mult; change (inject_Z 2) with 2; lra).
    rewrite (round_half_even_comp _ _ E), round_half_even_Z. lra.
Qed.

(** *** The trade methods with rounding *)

Section RoundedTrades.

Context (fl : Q -> Q) {R : Rounding fl}.

(** Outcome of [_buy_eth_fl], case by case. *)
Lemma buy_fl_spec (entry : option Q) (s : Sim) :
  (_buy_eth_fl fl entry s = (s, [InvalidQuantity]) /\
   (entry = None \/ exists q, entry = Some q /\ q <= 0)) \/
  (exists q, entry = Some q /\ 0 < q /\
     fl (balance_usd s + fl eps_usd) < fl (q * current_price s) /\
     _buy_eth_fl fl entry s = (s, [InsufficientBalance])) \/
  (exists q, entry = Some q /\ 0 < q /\
     fl (q * current_price s) <= fl (balance_usd s + fl eps_usd) /\
     _buy_eth_fl fl entry s
     = ({| balance_usd := fl (balance_usd s - fl (q * current_price s));
           balance_eth := fl (balance_eth s + q);
           current_price := current_price s;
           prev_price := prev_price s;
           candles := candles s |}, [OrderFilled])).
Proof.
  unfold _buy_eth_fl.
  destruct (parse_qty_spec entry) as [E | q E Hq | q E Hq].
  - left. cbn. split; [ reflexivity | now left ].
  - left. cbn. split; [ reflexivity | right; now exists q ].
  - assert (N : Qle_bool q 0 = false).
    { apply not_true_iff_false. rewrite Qle_bool_iff. now apply Qlt_not_le. }
    rewrite N.
    destruct (Qgt_bool (fl (q * current_price s)) (fl (balance_usd s + fl eps_usd))) eqn:G.
    + right; left. exists q. repeat split; auto. now apply Qgt_bool_iff.
    + right; right. exists q. repeat split; auto. now apply Qgt_bool_false.
Qed.

(** Outcome of [_sell_eth_fl], case by case. *)
Lemma sell_fl_spec (entry : option Q) (s : Sim) :
  (_sell_eth_fl fl entry s = (s, [InvalidQuantity]) /\
   (entry = None \/ exists q, entry = Some q /\ q <= 0)) \/
  (exists q, entry = Some q /\ 0 < q /\
     fl (balance_eth s + fl eps_eth) < q /\
     _sell_eth_fl fl entry s = (s, [InsufficientBalance])) \/
  (exists q, entry = Some q /\ 0 < q /\
     q <= fl (balance_eth s + fl eps_eth) /\
     _sell_eth_fl fl entry s
     = ({| balance_usd := fl (balance_usd s + fl (q * current_price s));
           balance_eth := fl (balance_eth s - q);
           current_price := current_price s;
           prev_price := prev_price s;
           candles := candles s |}, [OrderFilled])).
Proof.
  unfold _sell_eth_fl.
  destruct (parse_qty_spec entry) as [E | q E Hq | q E Hq].
  - left. cbn. split; [ reflexivity | now left ].
  - left. cbn. split; [ reflexivity | right; now exists q ].
  - assert (N : Qle_bool q 0 = false).
    { apply not_true_iff_false. rewrite Qle_bool_iff. now apply Qlt_not_le. }
    rewrite N.
    destruct (Qgt_bool q (fl (balance_eth s + fl eps_eth))) eqn:G.
    + right; left. exists q. repeat split; auto. now apply Qgt_bool_iff.
    + right; right. exists q. repeat split; auto. now apply Qgt_bool_false.
Qed.

Lemma buy_fl_filled_inv (entry : option Q) (s : Sim) :
  filled (_buy_eth_fl fl entry s) ->
  exists q, entry = Some q /\ 0 < q /\
    fl (q * current_price s) <= fl (balance_usd s + fl eps_usd) /\
    _buy_eth_fl fl entry s
    = ({| balance_usd := fl (balance_usd s - fl (q * current_price s));
          balance_eth := fl (balance_eth s + q);
          current_price := current_price s;
          prev_price := prev_price s;
          candles := candles s |}, [OrderFilled]).
Proof.
  unfold filled.
  destruct (buy_fl_spec entry s) as [[E _] | [(q & _ & _ & _ & E) | H]].
  - rewrite E. intros [C | []]. discriminate.
  - rewrite E. intros [C | []]. discriminate.
  - intros _. exact H.
Qed.

Lemma sell_fl_filled_inv (entry : option Q) (s : Sim) :
  filled (_sell_eth_fl fl entry s) ->
  exists q, entry = Some q /\ 0 < q /\
    q <= fl (balance_eth s + fl eps_eth) /\
    _sell_eth_fl fl entry s
    = ({| balance_usd := fl (balance_usd s + fl (q * current_price s));
          balance_eth := fl (balance_eth s - q);
          current_price := current_price s;
          prev_price := prev_price s;
          candles := candles s |}, [OrderFilled]).
Proof.
  unfold filled.
  destruct (sell_fl_spec entry s) as [[E _] | [(q & _ & _ & _ & E) | H]].
  - rewrite E. intros [C | []]. discriminate.
  - rewrite E. intros [C | []]. discriminate.
  - intros _. exact H.
Qed.

Lemma eps_nonneg : 0 <= fl eps_usd /\ 0 <= fl eps_eth.
Proof. split; apply fl_nonneg; try exact R; unfold eps_usd, eps_eth; lra. Qed.

Lemma twice_eps_float (e : Q) : is_float fl (- (2 * fl e)).
Proof. apply fl_opp, fl_twice, fl_idem. Qed.

Lemma buy_fl_keeps (entry : option Q) (s : Sim) :
  account_ok fl s -> account_ok fl (fst (_buy_eth_fl fl entry s)).
Proof.
  intros (Fu & Fe & [Hu He] & Hp). destruct eps_nonneg as [E1 E2].
  destruct (buy_fl_spec entry s) as [[E _] | [(q & _ & _ & _ & E) | (q & _ & Hq & Hc & E)]];
    rewrite E; cbn [fst]; try (repeat split; assumption).
  unfold account_ok, within_tolerance; cbn [balance_usd balance_eth current_price].
  pose proof (fl_tolerance fl _ _ Fu E1) as Ht.
  repeat split; try apply fl_idem; try assumption.
  - apply (@fl_above fl R); [ apply twice_eps_float | lra ].
  - apply (@fl_above fl R); [ apply twice_eps_float | lra ].
Qed.

Lemma sell_fl_keeps (entry : option Q) (s : Sim) :
  account_ok fl s -> account_ok fl (fst (_sell_eth_fl fl entry s)).
Proof.
  intros (Fu & Fe & [Hu He] & Hp). destruct eps_nonneg as [E1 E2].
  destruct (sell_fl_spec entry s) as [[E _] | [(q & _ & _ & _ & E) | (q & _ & Hq & Hc & E)]];
    rewrite E; cbn [fst]; try (repeat split; assumption).
  unfold account_ok, within_tolerance; cbn [balance_usd balance_eth current_price].
  pose proof (fl_tolerance fl _ _ Fe E2) as Ht.
  assert (Hpr : 0 <= fl (q * current_price s)).
  { apply fl_nonneg; [ exact R | ]. apply Qmult_le_0_compat; lra. }
  repeat split; try apply fl_idem; try assumption.
  - apply (@fl_above fl R); [ apply twice_eps_float | lra ].
  - apply (@fl_above fl R); [ apply twice_eps_float | lra ].
Qed.

Lemma act_keeps (s : Sim) (a : Action) :
  sound_action a -> account_ok fl s -> account_ok fl (act fl s a).
Proof.
  intros Ha H. destruct a as [p | entry | entry]; cbn [act].
  - destruct H as (Fu & Fe & Ht & _). destruct Ha as [Hp _].
    split; [ exact Fu | split; [ exact Fe | split; [ exact Ht | exact Hp ] ] ].
  - now apply buy_fl_keeps.
  - now apply sell_fl_keeps.
Qed.

Lemma fold_act_within (acts : list Action) (s : Sim) :
  Forall sound_action acts ->
  is_float fl (balance_usd s) -> is_float fl (balance_eth s) ->
  0 <= balance_usd s -> 0 <= balance_eth s -> 0 <= current_price s ->
  within_tolerance fl (fold_left (act fl) acts s).
Proof.
  intros Ha Fu Fe Hu He Hp. destruct eps_nonneg as [E1 E2].
  assert (H : account_ok fl s).
  { repeat split; try assumption; lra. }
  clear Fu Fe Hu He Hp. revert s H.
  induction Ha as [ | a acts Ha _ IH]; intros s H; cbn [fold_left].
  - apply H.
  - apply IH. now apply act_keeps.
Qed.


End RoundedTrades.

(** * Claims that depend on rounding *)

(** C5 (as amended). For every non-empty history of well-formed candles
    with prices between -(2^53 - 2) and 2^53 - 2, flat ones included, the
    window computed in binary64 has its top price strictly above the
    highest high and strictly above the bottom price, the divisor that the
    price-to-pixel mapping computes is positive, and the mapping raises at
    no price.  Beyond that range a padding of 1.0 can be lost to
    rounding. *)
Theorem window_span_is_positive
  (fl : Q -> Q) (w st : Z) (history : list Candle) :
  Rounding fl ->
  st <> 0%Z -> history <> [] ->
  Forall well_formed history -> Forall in_range history ->
  exists win all_high,
    compute_window fl w st history = Ok (Some win) /\
    data win <> [] /\
    max_of (map high (data win)) = Some all_high /\
    all_high < top_price win /\
    bot_price win < top_price win /\
    0 < fl (top_price win - bot_price win) /\
    forall price, exists y,
      yfrom_fl fl chart_h (top_price win) (bot_price win) price = Ok y.
Proof.
  intros R Hst Hne Hwf Hin.
  destruct (compute_window_apart fl w st history Hst Hne Hwf Hin)
    as (win & ah & E & _ & Hd & Eh & H1 & H2 & _).
  exists win, ah.
  split; [ exact E | split; [ exact Hd | split; [ exact Eh | split; [ exact H1 | ] ] ] ].
  split; [ lra | split; [ now apply (span_fl_pos fl) | ] ].
  intros price. now apply yfrom_fl_ok.
Qed.

Lemma flat_in_range (p : Q) : 0 < p -> p <= price_limit -> in_range (flat p).
Proof.
  intros H0 H1. unfold in_range; cbn [flat low high].
  assert (0 < price_limit) by reflexivity. split; lra.
Qed.

Lemma window_span_is_positive_witness :
  exists win,
    compute_window (fun x => x) chart_w step (repeat (flat 100) 3) = Ok (Some win) /\
    bot_price win < top_price win.
Proof.
  destruct (window_span_is_positive (fun x => x) chart_w step (repeat (flat 100) 3))
    as (win & ah & E & _ & _ & _ & H & _).
  - exact exact_rounding.
  - discriminate.
  - discriminate.
  - repeat constructor; apply flat_well_formed; lra.
  - repeat constructor; apply flat_in_range; try lra; apply Qle_bool_iff; reflexivity.
  - exists win. now split.
Defined.

(** A flat window at 1e16, on binary64 doubles: the padding 1.0 is lost in
    both directions, top and bottom coincide and [yfrom] divides by zero. *)
Lemma flat_window_at_1e16_has_no_span :
  Binary64.price_bounds64 [Binary64.flat64 1e16]
  = Some (1e16%float, 1e16%float) /\
  Binary64.yfrom64 560 1e16 1e16 1e16 = None.
Proof. split; reflexivity. Qed.

(** C7 (as amended). Both guards allow a tolerance, so the balances do not
    stay nonnegative.  For finite quantities, in binary64, as long as the
    balances stay in the range of doubles: starting from nonnegative
    balances, after any sequence of price changes, buys and sells the USD
    balance is at least minus twice the double 1e-9 and the ETH balance at
    least minus twice the double 1e-12, each double being at most twice its
    decimal value; a buy goes through only when the quantity is positive and
    its computed cost is at most the computed sum of the USD balance and
    1e-9, a sell only when the quantity is positive and at most the computed
    sum of the ETH balance and 1e-12. *)
Theorem balances_stay_within_tolerance
  (fl : Q -> Q) (s : Sim) (acts : list Action) :
  Rounding fl ->
  Forall sound_action acts -> stays_finite fl s acts ->
  is_float fl (balance_usd s) -> is_float fl (balance_eth s) ->
  0 <= balance_usd s -> 0 <= balance_eth s -> 0 <= current_price s ->
  (- (2 * fl eps_usd) <= balance_usd (fold_left (act fl) acts s) /\
   - (2 * fl eps_eth) <= balance_eth (fold_left (act fl) acts s)) /\
  (fl eps_usd <= 2 * eps_usd /\ fl eps_eth <= 2 * eps_eth) /\
  (forall entry s0, filled (_buy_eth_fl fl entry s0) ->
     exists q, entry = Some q /\ 0 < q /\
       fl (q * current_price s0) <= fl (balance_usd s0 + fl eps_usd)) /\
  (forall entry s0, filled (_sell_eth_fl fl entry s0) ->
     exists q, entry = Some q /\ 0 < q /\
       q <= fl (balance_eth s0 + fl eps_eth)).
Proof.
  intros R Ha _ Fu Fe Hu He Hp. split; [ | split; [ | split ] ].
  - now apply fold_act_within.
  - split; apply fl_literal; try exact R; unfold eps_usd, eps_eth; lra.
  - intros entry s0 H.
    destruct (buy_fl_filled_inv fl entry s0 H) as (q & E & Hq & Hc & _). now exists q.
  - intros entry s0 H.
    destruct (sell_fl_filled_inv fl entry s0 H) as (q & E & Hq & Hc & _). now exists q.
Qed.

Lemma balances_stay_within_tolerance_witness :
  - (2 * nearest_integer eps_usd)
  <= balance_usd (fold_left (act nearest_integer)
       [BuyOrder (Some 2.5); NewPrice 3600; SellOrder (Some 1); SellOrder (Some 5)]
       fresh).
Proof.
  apply (balances_stay_within_tolerance nearest_integer fresh
           [BuyOrder (Some 2.5); NewPrice 3600; SellOrder (Some 1); SellOrder (Some 5)]).
  - exact integer_rounding.
  - repeat constructor; apply Qle_bool_iff; reflexivity.
  - cbn [stays_finite]. unfold in_double_range.
    repeat split; apply Qle_bool_iff; reflexivity.
  - reflexivity.
  - reflexivity.
  - apply Qle_bool_iff. reflexivity.
  - apply Qle_bool_iff. reflexivity.
  - apply Qle_bool_iff. reflexivity.
Defined.




(** *** The vertical scale with rounding *)

Section RoundedScale.

Context (fl : Q -> Q) {R : Rounding fl}.

Variables top bot : Q.
Hypothesis span : 0 < fl (top - bot).

Lemma fl_chart_h : fl (inject_Z chart_h) == inject_Z chart_h.
Proof. apply (fl_int chart_h). unfold chart_h. cbn. lia. Qed.

Lemma yfrom_fl_row (price : Q) :
  yfrom_fl fl chart_h top bot price = Ok (row_fl fl top bot price).
Proof.
  unfold yfrom_fl. destruct (Qeq_bool (fl (top - bot)) 0) eqn:E.
  - apply Qeq_bool_iff in E. lra.
  - reflexivity.
Qed.

Lemma row_fl_anti (p1 p2 : Q) :
  p1 <= p2 -> row_fl fl top bot p2 <= row_fl fl top bot p1.
Proof.
  intros H. unfold row_fl. apply fl_mono.
  assert (Hh : 0 <= inject_Z chart_h) by discriminate.
  assert (Hi : 0 <= / fl (top - bot)) by (apply Qlt_le_weak, Qinv_lt_0_compat, span).
  assert (H1 : fl (p1 - bot) <= fl (p2 - bot)) by (apply fl_mono; lra).
  assert (H2 : fl (fl (p1 - bot) / fl (top - bot)) <= fl (fl (p2 - bot) / fl (top - bot))).
  { apply fl_mono. unfold Qdiv. now apply Qmult_le_compat_r. }
  assert (H3 : fl (fl (fl (p1 - bot) / fl (top - bot)) * inject_Z chart_h)
               <= fl (fl (fl (p2 - bot) / fl (top - bot)) * inject_Z chart_h)).
  { apply fl_mono. now apply Qmult_le_compat_r. }
  lra.
Qed.

Lemma row_fl_top : row_fl fl top bot top == 0.
Proof.
  unfold row_fl.
  assert (E1 : fl (fl (top - bot) / fl (top - bot)) == 1).
  { apply Qeq_trans with (fl 1); [ apply fl_comp; field; lra | apply (fl_one fl) ]. }
  assert (E2 : fl (fl (fl (top - bot) / fl (top - bot)) * inject_Z chart_h)
               == inject_Z chart_h).
  { apply Qeq_trans with (fl (inject_Z chart_h));
      [ apply fl_comp; rewrite E1; ring | apply fl_chart_h ]. }
  apply Qeq_trans with (fl 0); [ apply fl_comp; rewrite E2; ring | apply (fl_zero fl) ].
Qed.

Lemma row_fl_bot : row_fl fl top bot bot == inject_Z chart_h.
Proof.
  unfold row_fl.
  assert (E0 : fl (bot - bot) == 0).
  { apply Qeq_trans with (fl 0); [ apply fl_comp; ring | apply (fl_zero fl) ]. }
  assert (E1 : fl (fl (bot - bot) / fl (top - bot)) == 0).
  { apply Qeq_trans with (fl 0);
      [ apply fl_comp; rewrite E0; field; lra | apply (fl_zero fl) ]. }
  assert (E2 : fl (fl (fl (bot - bot) / fl (top - bot)) * inject_Z chart_h) == 0).
  { apply Qeq_trans with (fl 0);
      [ apply fl_comp; rewrite E1; ring | apply (fl_zero fl) ]. }
  apply Qeq_trans with (fl (inject_Z chart_h));
    [ apply fl_comp; rewrite E2; ring | apply fl_chart_h ].
Qed.

Lemma row_fl_on_canvas (p : Q) :
  bot <= p -> p <= top ->
  0 <= row_fl fl top bot p /\ row_fl fl top bot p <= inject_Z chart_h.
Proof.
  intros H1 H2.
  pose proof (row_fl_anti p top H2) as A. pose proof (row_fl_anti bot p H1) as B.
  pose proof row_fl_top. pose proof row_fl_bot. split; lra.
Qed.

(** The candle loop, once the divisor is known not to be zero. *)
Lemma draw_candles_spec (data : list Candle) (x : Z) :
  exists items,
    draw_candles fl top bot x data = (items, Ok tt) /\
    List.length items = (2 * List.length data)%nat /\
    forall k c, nth_error data k = Some c ->
      nth_error items (2 * k)
      = Some (wick (x + Z.of_nat k * step)
                (row_fl fl top bot (high c)) (row_fl fl top bot (low c)) c) /\
      nth_error items (S (2 * k))
      = Some (body fl (x + Z.of_nat k * step)
                (row_fl fl top bot (open c)) (row_fl fl top bot (close c)) c).
Proof.
  revert x. induction data as [ | c rest IH]; intros x.
  - exists []. repeat split; try reflexivity; destruct k; discriminate.
  - destruct (IH (x + step)%Z) as (items & E & L & N).
    exists (wick x (row_fl fl top bot (high c)) (row_fl fl top bot (low c)) c
            :: body fl x (row_fl fl top bot (open c)) (row_fl fl top bot (close c)) c
            :: items).
    split; [ | split ].
    + cbn [draw_candles]. rewrite !yfrom_fl_row.
      cbv [bindD lift emit]. rewrite E. reflexivity.
    + cbn [List.length]. lia.
    + intros [ | k] c' Hc.
      * cbn in Hc. injection Hc as <-. cbn [Z.of_nat].
        replace (x + 0 * step)%Z with x by lia. split; reflexivity.
      * cbn [nth_error] in Hc. destruct (N k c' Hc) as [N1 N2].
        replace (x + Z.of_nat (S k) * step)%Z with (x + step + Z.of_nat k * step)%Z by lia.
        replace (2 * S k)%nat with (S (S (2 * k))) by lia.
        cbn [nth_error]. now split.
Qed.

(** Every item of the loop is the wick or the body of a candle. *)
Lemma draw_candles_items (data : list Candle) (items : list Primitive) (p : Primitive) :
  draw_candles fl top bot 0 data = (items, Ok tt) -> In p items ->
  exists k c, nth_error data k = Some c /\
    (p = wick (Z.of_nat k * step)
           (row_fl fl top bot (high c)) (row_fl fl top bot (low c)) c \/
     p = body fl (Z.of_nat k * step)
           (row_fl fl top bot (open c)) (row_fl fl top bot (close c)) c).
Proof.
  intros E Hin.
  destruct (draw_candles_spec data 0) as (items' & E' & L & N).
  rewrite E in E'. injection E' as <-.
  apply In_nth_error in Hin as [n Hn].
  assert (Hlt : (n < List.length items)%nat) by (apply nth_error_Some; congruence).
  assert (Hk : (Nat.div2 n < List.length data)%nat).
  { pose proof (Nat.div2_odd n). destruct (Nat.odd n); cbn in *; lia. }
  destruct (nth_error data (Nat.div2 n)) as [c | ] eqn:Ec;
    [ | apply nth_error_None in Ec; lia ].
  exists (Nat.div2 n), c. split; [ exact Ec | ].
  destruct (N _ _ Ec) as [N1 N2]. change (0 + ?a)%Z with a in N1, N2.
  pose proof (Nat.div2_odd n) as D. destruct (Nat.odd n); cbn [Nat.b2n] in D.
  - right. replace (S (2 * Nat.div2 n)) with n in N2 by lia. congruence.
  - left. replace (2 * Nat.div2 n)%nat with n in N1 by lia. congruence.
Qed.

End RoundedScale.

(** *** The grid and the whole redraw with rounding *)

Section RoundedRedraw.

Context (fl : Q -> Q) {R : Rounding fl}.

Lemma price_bounds_floats (data : list Candle) (top bot : Q) :
  price_bounds fl data = Ok (top, bot) -> is_float fl top /\ is_float fl bot.
Proof.
  unfold price_bounds.
  destruct (max_of (map high data)) as [ah | ]; [ | discriminate ].
  destruct (min_of (map low data)) as [al | ]; [ | discriminate ].
  cbn [of_option bind]. intros E. injection E as <- <-. split.
  - apply fl_idem.
  - match goal with
    | |- is_float fl (Qmax ?a ?b) =>
        destruct (Q.max_spec a b) as [[_ E] | [_ E]]
    end; unfold is_float;
      (eapply Qeq_trans; [ apply fl_comp, E | ]);
      (eapply Qeq_trans; [ apply fl_idem | symmetry; exact E ]).
Qed.

Lemma compute_window_floats (w st : Z) (history : list Candle) (win : ViewWindow) :
  compute_window fl w st history = Ok (Some win) ->
  is_float fl (top_price win) /\ is_float fl (bot_price win).
Proof.
  unfold compute_window. destruct history as [ | c rest]; [ discriminate | ].
  destruct (visible w st (c :: rest)) as [d | e]; [ | discriminate ]. cbn [bind].
  destruct (price_bounds fl d) as [[top bot] | e] eqn:E; [ | discriminate ]. cbn [bind].
  intros H. injection H as <-. cbn [top_price bot_price].
  now apply (price_bounds_floats d).
Qed.

Lemma draw_grid_length (top bot : Q) : List.length (_draw_grid fl top bot) = 21%nat.
Proof. reflexivity. Qed.

Lemma draw_grid_rows (top bot : Q) (i : nat) :
  (i <= 6)%nat ->
  nth_error (_draw_grid fl top bot) (2 * i)
  = Some (create_line 0 (grid_y fl (Z.of_nat i)) (inject_Z chart_w)
            (grid_y fl (Z.of_nat i)) "#23262e") /\
  nth_error (_draw_grid fl top bot) (2 * i + 1)
  = Some (create_text (inject_Z (chart_w - 6)) (fl (grid_y fl (Z.of_nat i) + 2))
            "ne" "#8a8f9a" (PriceLabel (grid_price fl top bot (Z.of_nat i)))).
Proof.
  intros Hi.
  do 7 (destruct i as [ | i]; [ split; reflexivity | ]). lia.
Qed.

Lemma draw_grid_columns (top bot : Q) (j : nat) :
  (1 <= j <= 7)%nat ->
  nth_error (_draw_grid fl top bot) (13 + j)
  = Some (create_line (grid_x fl (Z.of_nat j)) 0 (grid_x fl (Z.of_nat j))
            (inject_Z chart_h) "#20232b").
Proof.
  intros Hj. destruct j as [ | j]; [ lia | ].
  do 7 (destruct j as [ | j]; [ reflexivity | ]). lia.
Qed.

Lemma grid_has_no_rectangle (top bot x0 y0 x1 y1 : Q) (f o : string) :
  ~ In (create_rectangle x0 y0 x1 y1 f o) (_draw_grid fl top bot).
Proof.
  unfold _draw_grid. intros H. apply in_app_or in H as [H | H].
  - apply in_flat_map in H as (i & _ & [H | [H | []]]); discriminate.
  - apply in_map_iff in H as (i & H & _). discriminate.
Qed.

Lemma grid_y_first : grid_y fl 0 == 0.
Proof.
  unfold grid_y.
  apply Qeq_trans with (fl 0); [ apply fl_comp; ring | apply (fl_zero fl) ].
Qed.

Lemma grid_step_nonneg : 0 <= fl (inject_Z chart_h / inject_Z GRID_HLINES).
Proof. apply (fl_nonneg fl). discriminate. Qed.

Lemma grid_y_mono (i j : Z) : (i <= j)%Z -> grid_y fl i <= grid_y fl j.
Proof.
  intros H. unfold grid_y. apply fl_mono.
  apply Qmult_le_compat_r; [ now rewrite <- Zle_Qle | apply grid_step_nonneg ].
Qed.

Lemma grid_price_first (top bot : Q) :
  is_float fl top -> grid_price fl top bot 0 == top.
Proof.
  intros Ft. unfold grid_price.
  assert (E1 : fl (inject_Z 0 / inject_Z GRID_HLINES) == 0).
  { apply Qeq_trans with (fl 0); [ apply fl_comp; reflexivity | apply (fl_zero fl) ]. }
  assert (E2 : fl (fl (top - bot) * fl (inject_Z 0 / inject_Z GRID_HLINES)) == 0).
  { apply Qeq_trans with (fl 0); [ apply fl_comp; rewrite E1; ring | apply (fl_zero fl) ]. }
  apply Qeq_trans with (fl top); [ apply fl_comp; rewrite E2; ring | exact Ft ].
Qed.

Lemma grid_fraction_mono (i j : Z) :
  (0 <= i <= j)%Z ->
  0 <= fl (inject_Z i / inject_Z GRID_HLINES) /\
  fl (inject_Z i / inject_Z GRID_HLINES) <= fl (inject_Z j / inject_Z GRID_HLINES).
Proof.
  intros [H0 H]. rewrite Zle_Qle in H0, H. change (inject_Z 0) with 0 in H0.
  assert (Hh : 0 <= / inject_Z GRID_HLINES) by discriminate.
  split.
  - apply (fl_nonneg fl). unfold Qdiv. now apply Qmult_le_0_compat.
  - apply fl_mono. unfold Qdiv. now apply Qmult_le_compat_r.
Qed.

Lemma grid_price_anti (top bot : Q) (i j : Z) :
  bot <= top -> (0 <= i <= j)%Z ->
  grid_price fl top bot j <= grid_price fl top bot i.
Proof.
  intros Hs Hij. unfold grid_price. apply fl_mono.
  destruct (grid_fraction_mono i j Hij) as [F0 F1].
  assert (Hd : 0 <= fl (top - bot)) by (apply (fl_nonneg fl); lra).
  assert (H : fl (fl (top - bot) * fl (inject_Z i / inject_Z GRID_HLINES))
              <= fl (fl (top - bot) * fl (inject_Z j / inject_Z GRID_HLINES))).
  { apply fl_mono. rewrite !(Qmult_comm (fl (top - bot))).
    now apply Qmult_le_compat_r. }
  lra.
Qed.

(** The last label is the bottom price up to the rounding of the span. *)
Lemma grid_price_last (top bot : Q) :
  is_float fl bot ->
  Qabs (grid_price fl top bot GRID_HLINES - bot)
  <= 2 * Qabs (fl (top - bot) - (top - bot)).
Proof.
  intros Fb. unfold grid_price.
  assert (E1 : fl (inject_Z GRID_HLINES / inject_Z GRID_HLINES) == 1).
  { apply Qeq_trans with (fl 1); [ apply fl_comp; reflexivity | apply (fl_one fl) ]. }
  assert (E2 : fl (fl (top - bot) * fl (inject_Z GRID_HLINES / inject_Z GRID_HLINES))
               == fl (top - bot)).
  { apply Qeq_trans with (fl (fl (top - bot)));
      [ apply fl_comp; rewrite E1; ring | apply fl_idem ]. }
  set (m := fl (top - bot)) in *.
  assert (E3 : fl (top - fl (m * fl (inject_Z GRID_HLINES / inject_Z GRID_HLINES)))
               == fl (top - m)).
  { apply fl_comp. rewrite E2. reflexivity. }
  rewrite E3.
  pose proof (fl_nearest (top - m) bot Fb) as N.
  assert (T : Qabs (fl (top - m) - bot)
              <= Qabs (fl (top - m) - (top - m)) + Qabs ((top - m) - bot)).
  { setoid_replace (fl (top - m) - bot)
      with ((fl (top - m) - (top - m)) + ((top - m) - bot)) by ring.
    apply Qabs_triangle. }
  assert (S1 : Qabs (bot - (top - m)) == Qabs (m - (top - bot))).
  { apply Qabs_wd. ring. }
  assert (S2 : Qabs ((top - m) - bot) == Qabs (m - (top - bot))).
  { rewrite <- (Qabs_opp (m - (top - bot))). apply Qabs_wd. ring. }
  lra.
Qed.

(** The redraw of a non-empty history of well-formed candles within the
    limit. *)
Lemma draw_chart_spec (history : list Candle) :
  history <> [] -> Forall well_formed history -> Forall in_range history ->
  exists win items,
    compute_window fl chart_w step history = Ok (Some win) /\
    data win = last_n (window_size chart_w step (List.length history)) history /\
    0 < fl (top_price win - bot_price win) /\
    (forall k, In k (data win) ->
       high k < top_price win /\
       (bot_price win < low k \/ bot_price win == fl 0.1)) /\
    draw_candles fl (top_price win) (bot_price win) 0 (data win) = (items, Ok tt) /\
    List.length items = (2 * List.length (data win))%nat /\
    _draw_chart fl history
    = (_draw_grid fl (top_price win) (bot_price win)
       ++ items
       ++ [create_text 8 10 "nw" "#c7c7c7" (MaxLabel (top_price win));
           create_text 8 (inject_Z (chart_h - 24)) "nw" "#c7c7c7"
             (MinLabel (bot_price win))],
       Ok tt).
Proof.
  intros Hne Hwf Hin.
  assert (Hst : step <> 0%Z) by discriminate.
  destruct (compute_window_apart fl chart_w step history Hst Hne Hwf Hin)
    as (win & ah & E & Ed & _ & _ & _ & Hspan & _ & Hall).
  pose proof (span_fl_pos fl _ _ Hspan) as Hpos.
  destruct (draw_candles_spec fl (top_price win) (bot_price win) Hpos (data win) 0)
    as (items & Ec & L & _).
  exists win, items. repeat split; try assumption; try (now apply Hall).
  unfold _draw_chart. rewrite E. cbv [bindD lift emit]. rewrite Ec.
  reflexivity.
Qed.

End RoundedRedraw.

(** *** Items of the candle loop, spelled out *)

Section Items.

Lemma wick_eq (x : Z) (y_high y_low : Q) (c : Candle) :
  wick x y_high y_low c
  = create_line (inject_Z (x + 6)) y_high (inject_Z (x + 6)) y_low (color c).
Proof. reflexivity. Qed.

Lemma body_eq (fl : Q -> Q) (x : Z) (y_open y_close : Q) (c : Candle) :
  body fl x y_open y_close c
  = create_rectangle (inject_Z x) (Qmin y_open y_close) (inject_Z (x + 12))
      (if Qgt_bool 1 (Qabs (fl (Qmax y_open y_close - Qmin y_open y_close)))
       then fl (Qmin y_open y_close + 1) else Qmax y_open y_close)
      (color c) (color c).
Proof.
  unfold body, body_rows.
  destruct (Qgt_bool 1 (Qabs (fl (Qmax y_open y_close - Qmin y_open y_close))));
    reflexivity.
Qed.

Lemma drawable_window (fl : Q -> Q) (history : list Candle) (n : nat) (c : Candle) :
  Forall (drawable fl) history -> In c (last_n n history) -> drawable fl c.
Proof.
  intros H Hc. destruct (last_n_suffix n history) as [older Eo].
  rewrite Forall_forall in H. apply H. rewrite Eo. apply in_or_app. now right.
Qed.

Lemma drawable_parts (fl : Q -> Q) (history : list Candle) :
  Forall (drawable fl) history ->
  Forall well_formed history /\ Forall in_range history.
Proof.
  intros H. split; (eapply Forall_impl; [ | exact H ]); intros c (H1 & H2 & _); assumption.
Qed.

Lemma float_min (fl : Q -> Q) (R : Rounding fl) (a b : Q) :
  is_float fl a -> is_float fl b -> is_float fl (Qmin a b).
Proof.
  intros Fa Fb. unfold is_float in *.
  destruct (Q.min_spec a b) as [[_ E] | [_ E]];
    (eapply Qeq_trans; [ apply fl_comp, E | ]); rewrite E; assumption.
Qed.

Lemma row_fl_float (fl : Q -> Q) (R : Rounding fl) (top bot p : Q) :
  is_float fl (row_fl fl top bot p).
Proof. unfold row_fl. apply fl_idem. Qed.

(** The four rows of a drawable candle of the window. *)
Lemma candle_rows (fl : Q -> Q) (R : Rounding fl) (top bot : Q) (c : Candle) :
  0 < fl (top - bot) ->
  drawable fl c -> high c < top -> bot < low c \/ bot == fl 0.1 ->
  let y_high := row_fl fl top bot (high c) in
  let y_low := row_fl fl top bot (low c) in
  let y_open := row_fl fl top bot (open c) in
  let y_close := row_fl fl top bot (close c) in
  0 <= y_high /\ y_high <= Qmin y_open y_close /\
  Qmax y_open y_close <= y_low /\ y_low <= inject_Z chart_h.
Proof.
  intros Hpos ((_ & _ & Hlo & Hhi) & _ & Hfloor) Hh Hl. cbv zeta.
  pose proof (Q.le_min_l (open c) (close c)). pose proof (Q.le_min_r (open c) (close c)).
  pose proof (Q.le_max_l (open c) (close c)). pose proof (Q.le_max_r (open c) (close c)).
  assert (Hb : bot <= low c) by (destruct Hl; lra).
  split; [ | split; [ | split ] ].
  - apply (row_fl_on_canvas fl top bot Hpos); lra.
  - apply Q.min_glb; apply (row_fl_anti fl top bot Hpos); lra.
  - apply Q.max_lub; apply (row_fl_anti fl top bot Hpos); lra.
  - apply (row_fl_on_canvas fl top bot Hpos); lra.
Qed.

End Items.

(** * Further properties with rounding *)

(** X10. For every non-empty window of well-formed candles with prices
    between -(2^53 - 2) and 2^53 - 2 the price bounds are computed without
    error, in binary64: both are doubles, the bottom bound is at least the
    double 0.1 and strictly below the top bound, the top bound is strictly
    above the high of every visible candle, and the bottom bound is strictly
    below the low of every visible candle unless it is the floor 0.1.  An
    empty window raises [ValueError]. *)
Theorem bounds_enclose_the_window (fl : Q -> Q) (data : list Candle) :
  Rounding fl ->
  price_bounds fl [] = Raise ValueError /\
  (data <> [] -> Forall well_formed data -> Forall in_range data ->
   exists top bot,
     price_bounds fl data = Ok (top, bot) /\
     is_float fl top /\ is_float fl bot /\
     fl 0.1 <= bot /\ bot < top /\
     forall k, In k data -> high k < top /\ (bot < low k \/ bot == fl 0.1)).
Proof.
  intros R. split; [ reflexivity | ]. intros Hne Hwf Hin.
  destruct (price_bounds_apart fl data Hne Hwf Hin)
    as (top & bot & ah & E & _ & _ & H2 & H3 & H4).
  destruct (price_bounds_floats fl data top bot E) as [Ft Fb].
  exists top, bot. repeat split; try assumption; try (now apply H4). lra.
Qed.

Lemma bounds_enclose_the_window_witness :
  exists top bot,
    price_bounds (fun x => x) [flat 100; flat 120; flat 90] = Ok (top, bot) /\
    bot < top.
Proof.
  destruct (bounds_enclose_the_window (fun x => x) [flat 100; flat 120; flat 90]
              exact_rounding) as [_ H].
  destruct H as (top & bot & E & _ & _ & _ & H & _).
  - discriminate.
  - repeat constructor; apply flat_well_formed; lra.
  - repeat constructor; apply flat_in_range; try lra; apply Qle_bool_iff; reflexivity.
  - exists top, bot. now split.
Defined.

(** X12. For a non-empty history of well-formed candles within the limit
    whose lows are not under 0.1, the candle loop of the redraw never
    raises and draws two items per visible candle, in order, in binary64:
    the candle at position k gets a wick line at x = 16k + 6 from
    yfrom(high) to yfrom(low), then a body rectangle from x = 16k to
    x = 16k + 12 whose top row is min(yfrom(open), yfrom(close)) and whose
    bottom row is the larger of the two, or the top row plus one when the
    computed height is under one pixel, both in the candle's colour.  The
    wick starts on the canvas at or above the body and ends at or below it,
    on the canvas. *)
Theorem candle_loop_draws_wick_and_body (fl : Q -> Q) (history : list Candle) :
  Rounding fl ->
  history <> [] -> Forall (drawable fl) history ->
  exists win items,
    compute_window fl chart_w step history = Ok (Some win) /\
    draw_candles fl (top_price win) (bot_price win) 0 (data win) = (items, Ok tt) /\
    List.length items = (2 * List.length (data win))%nat /\
    forall k c, nth_error (data win) k = Some c ->
      exists y_high y_low y_open y_close,
        yfrom_fl fl chart_h (top_price win) (bot_price win) (high c) = Ok y_high /\
        yfrom_fl fl chart_h (top_price win) (bot_price win) (low c) = Ok y_low /\
        yfrom_fl fl chart_h (top_price win) (bot_price win) (open c) = Ok y_open /\
        yfrom_fl fl chart_h (top_price win) (bot_price win) (close c) = Ok y_close /\
        nth_error items (2 * k)
        = Some (create_line (inject_Z (16 * Z.of_nat k + 6)) y_high
                  (inject_Z (16 * Z.of_nat k + 6)) y_low (color c)) /\
        nth_error items (2 * k + 1)
        = Some (create_rectangle (inject_Z (16 * Z.of_nat k)) (Qmin y_open y_close)
                  (inject_Z (16 * Z.of_nat k + 12))
                  (if Qgt_bool 1 (Qabs (fl (Qmax y_open y_close - Qmin y_open y_close)))
                   then fl (Qmin y_open y_close + 1) else Qmax y_open y_close)
                  (color c) (color c)) /\
        0 <= y_high /\ y_high <= Qmin y_open y_close /\
        Qmax y_open y_close <= y_low /\ y_low <= inject_Z chart_h.
Proof.
  intros R Hne Hd. destruct (drawable_parts fl history Hd) as [Hwf Hin].
  destruct (draw_chart_spec fl history Hne Hwf Hin)
    as (win & items & E & Ed & Hpos & Hall & Ec & L & _).
  exists win, items. split; [ exact E | split; [ exact Ec | split; [ exact L | ] ] ].
  intros k c Hk.
  destruct (draw_candles_spec fl (top_price win) (bot_price win) Hpos (data win) 0)
    as (items' & Ec' & _ & N).
  rewrite Ec in Ec'. injection Ec' as <-.
  destruct (N k c Hk) as [N1 N2].
  replace (0 + Z.of_nat k * step)%Z with (16 * Z.of_nat k)%Z in N1, N2
    by (change step with 16%Z; lia).
  rewrite wick_eq in N1. rewrite body_eq in N2.
  replace (2 * k + 1)%nat with (S (2 * k)) by lia.
  assert (Hc : In c (data win)) by (eapply nth_error_In; exact Hk).
  destruct (Hall c Hc) as [Hh Hl].
  assert (Dc : drawable fl c).
  { rewrite Ed in Hc. exact (drawable_window fl history _ c Hd Hc). }
  exists (row_fl fl (top_price win) (bot_price win) (high c)),
         (row_fl fl (top_price win) (bot_price win) (low c)),
         (row_fl fl (top_price win) (bot_price win) (open c)),
         (row_fl fl (top_price win) (bot_price win) (close c)).
  rewrite !(yfrom_fl_row fl _ _ Hpos).
  repeat (split; [ reflexivity | ]).
  split; [ exact N1 | split; [ exact N2 | ] ].
  exact (candle_rows fl R _ _ c Hpos Dc Hh Hl).
Qed.

Lemma flat_drawable (fl : Q -> Q) (p : Q) :
  Rounding fl -> 1 <= p -> p <= price_limit -> drawable fl (flat p).
Proof.
  intros R H1 H2. split; [ apply flat_well_formed; lra | split ].
  - apply flat_in_range; [ lra | exact H2 ].
  - cbn [flat low]. destruct (fl_literal fl 0.1); lra.
Qed.

Lemma candle_loop_draws_wick_and_body_witness :
  exists win items,
    compute_window (fun x => x) chart_w step [flat 100; flat 120; flat 90]
    = Ok (Some win) /\
    draw_candles (fun x => x) (top_price win) (bot_price win) 0 (data win)
    = (items, Ok tt) /\
    List.length items = (2 * List.length (data win))%nat.
Proof.
  destruct (candle_loop_draws_wick_and_body (fun x => x) [flat 100; flat 120; flat 90]
              exact_rounding) as (win & items & H1 & H2 & H3 & _).
  - discriminate.
  - repeat (apply Forall_cons;
              [ apply flat_drawable;
                [ exact exact_rounding | lra | apply Qle_bool_iff; reflexivity ] | ]).
    apply Forall_nil.
  - exists win, items. split; [ exact H1 | split; [ exact H2 | exact H3 ] ].
Defined.

(** X13. Redrawing with no candle leaves the canvas empty.  Redrawing a
    non-empty history of well-formed candles within the limit whose lows
    are not under 0.1 never raises, in binary64: the canvas then holds the
    21 grid items, two items per visible candle and the two axis texts, in
    this order, and every rectangle on it lies within the width of the
    canvas (0 <= x0, x1 = x0 + 12 <= chart_w), starts on a row of the
    canvas and ends at or below that row, at most one pixel under the
    canvas. *)
Theorem redraw_stays_on_canvas (fl : Q -> Q) (history : list Candle) :
  Rounding fl ->
  _draw_chart fl [] = ([], Ok tt) /\
  (history <> [] -> Forall (drawable fl) history ->
   exists win items,
     compute_window fl chart_w step history = Ok (Some win) /\
     draw_candles fl (top_price win) (bot_price win) 0 (data win) = (items, Ok tt) /\
     _draw_chart fl history
     = (_draw_grid fl (top_price win) (bot_price win)
        ++ items
        ++ [create_text 8 10 "nw" "#c7c7c7" (MaxLabel (top_price win));
            create_text 8 (inject_Z (chart_h - 24)) "nw" "#c7c7c7"
              (MinLabel (bot_price win))],
        Ok tt) /\
     List.length (fst (_draw_chart fl history))
     = (23 + 2 * Nat.min 90 (List.length history))%nat /\
     forall x0 y0 x1 y1 f o,
       In (create_rectangle x0 y0 x1 y1 f o) (fst (_draw_chart fl history)) ->
       0 <= x0 /\ x1 == x0 + 12 /\ x1 <= inject_Z chart_w /\
       0 <= y0 /\ y0 <= y1 /\ y1 <= inject_Z chart_h + 1).
Proof.
  intros R. split; [ reflexivity | ]. intros Hne Hd.
  destruct (drawable_parts fl history Hd) as [Hwf Hin].
  destruct (draw_chart_spec fl history Hne Hwf Hin)
    as (win & items & E & Ed & Hpos & Hall & Ec & L & Ech).
  assert (Ld : List.length (data win) = Nat.min 90 (List.length history)).
  { rewrite Ed, last_n_length by apply window_size_le. apply window_size_constants. }
  exists win, items.
  split; [ exact E | split; [ exact Ec | split; [ exact Ech | ] ] ].
  rewrite Ech. cbn [fst]. split.
  - rewrite !length_app, draw_grid_length, L, Ld. cbn [List.length]. lia.
  - intros x0 y0 x1 y1 f o H.
    apply in_app_or in H as [H | H]; [ now apply grid_has_no_rectangle in H | ].
    apply in_app_or in H as [H | [H | [H | []]]]; try discriminate.
    destruct (draw_candles_items fl _ _ Hpos _ _ _ Ec H) as (k & c & Hk & [Ew | Eb]);
      [ rewrite wick_eq in Ew; discriminate | ].
    assert (Hlt : (k < 90)%nat).
    { assert (k < List.length (data win))%nat by (apply nth_error_Some; congruence). lia. }
    assert (Hc : In c (data win)) by (eapply nth_error_In; exact Hk).
    destruct (Hall c Hc) as [Hh Hl].
    assert (Dc : drawable fl c).
    { rewrite Ed in Hc. exact (drawable_window fl history _ c Hd Hc). }
    destruct (candle_rows fl R _ _ c Hpos Dc Hh Hl) as (B1 & B2 & B3 & B4).
    set (y_open := row_fl fl (top_price win) (bot_price win) (open c)) in *.
    set (y_close := row_fl fl (top_price win) (bot_price win) (close c)) in *.
    assert (Fm : is_float fl (Qmin y_open y_close)).
    { apply (float_min fl R); apply (row_fl_float fl R). }
    assert (Hmm : Qmin y_open y_close <= Qmax y_open y_close).
    { pose proof (Q.le_min_l y_open y_close). pose proof (Q.le_max_l y_open y_close). lra. }
    rewrite body_eq in Eb. injection Eb as -> -> -> Ey _ _.
    change step with 16%Z. change chart_w with 1450%Z.
    split; [ | split; [ | split; [ | split; [ lra | ] ] ] ].
    + change 0 with (inject_Z 0). rewrite <- Zle_Qle. lia.
    + rewrite inject_Z_plus. reflexivity.
    + rewrite <- Zle_Qle. lia.
    + rewrite Ey.
      destruct (Qgt_bool 1 (Qabs (fl (Qmax y_open y_close - Qmin y_open y_close)))).
      * split.
        -- apply (fl_above fl); [ exact Fm | lra ].
        -- apply (fl_below fl); [ | lra ].
           change (inject_Z chart_h + 1) with (inject_Z chart_h + inject_Z 1).
           rewrite <- inject_Z_plus. apply (fl_int (chart_h + 1)).
           unfold chart_h. cbn. lia.
      * split; lra.
Qed.

Lemma redraw_stays_on_canvas_witness :
  List.length (fst (_draw_chart (fun x => x) [flat 100; flat 120; flat 90])) = 29%nat.
Proof.
  destruct (redraw_stays_on_canvas (fun x => x) [flat 100; flat 120; flat 90]
              exact_rounding) as [_ H].
  destruct H as (win & items & _ & _ & _ & H & _).
  - discriminate.
  - repeat (apply Forall_cons;
              [ apply flat_drawable;
                [ exact exact_rounding | lra | apply Qle_bool_iff; reflexivity ] | ]).
    apply Forall_nil.
  - exact H.
Defined.

(** X14. In every state the program reaches (random() in [0, 1)) whose
    stored prices stay between -(2^53 - 2) and 2^53 - 2, the redraw
    completes without raising, in binary64, and the canvas holds
    23 + 2 * min(90, 2 + number of ticks) items. *)
Theorem redraw_of_reachable_state_succeeds
  (fl : Q -> Q) (d0 : CandleDraws) (z1 : Q) (d1 : CandleDraws) (evs : list Event) :
  Rounding fl ->
  unit_draw (r_open d0) ->
  let history := candles (run d0 z1 d1 evs) in
  Forall in_range history ->
  snd (_draw_chart fl history) = Ok tt /\
  List.length (fst (_draw_chart fl history))
  = (23 + 2 * Nat.min 90 (2 + ticks evs))%nat.
Proof.
  intros R Hr. cbv zeta. intros Hin.
  destruct (run_ok d0 z1 d1 evs Hr) as (_ & Hne & Hall).
  assert (Hwf : Forall well_formed (candles (run d0 z1 d1 evs))).
  { eapply Forall_impl; [ | exact Hall ]. now intros c [H _]. }
  destruct (draw_chart_spec fl _ Hne Hwf Hin)
    as (win & items & _ & Ed & _ & _ & _ & L & E).
  assert (Hlen : List.length (candles (run d0 z1 d1 evs)) = (2 + ticks evs)%nat).
  { unfold run. destruct (fold_handle_candles evs (__init__ d0 z1 d1)) as (new & En & Ln).
    rewrite En, length_app, Ln. reflexivity. }
  rewrite E. cbn [fst snd]. split; [ reflexivity | ].
  rewrite !length_app, draw_grid_length, L, Ed, last_n_length by apply window_size_le.
  rewrite window_size_constants, Hlen.
  cbn [List.length]. lia.
Qed.

Lemma redraw_of_reachable_state_succeeds_witness :
  snd (_draw_chart (fun x => x)
         (candles (run draws_a 1 draws_b [Tick (-1) draws_a]))) = Ok tt.
Proof.
  apply (redraw_of_reachable_state_succeeds (fun x => x) draws_a 1 draws_b
           [Tick (-1) draws_a]).
  - exact exact_rounding.
  - unfold unit_draw; cbn; lra.
  - vm_compute. repeat constructor; intros C; discriminate C.
Defined.

(** X15. For the window of a non-empty history of well-formed candles
    within the limit, the grid holds 21 items, in binary64: for i = 0..6 a
    horizontal line across the chart at row i * (chart_h / 6), followed by a
    label two pixels below it that shows
    top_price - (top_price - bot_price) * (i / 6), then seven vertical
    lines at x = j * (chart_w / 8), j = 1..7.  The rows start at 0 and never
    decrease; the labels never increase down the grid, the first one shows
    exactly top_price, and the last one differs from bot_price by at most
    twice the rounding error of top_price - bot_price.  In exact arithmetic
    every label shows the price that yfrom maps to the row of its line, and
    the last label shows bot_price. *)
Theorem grid_labels_match_the_scale (fl : Q -> Q) (history : list Candle) :
  Rounding fl ->
  history <> [] -> Forall well_formed history -> Forall in_range history ->
  exists win,
    compute_window fl chart_w step history = Ok (Some win) /\
    let top := top_price win in
    let bot := bot_price win in
    let grid := _draw_grid fl top bot in
    List.length grid = 21%nat /\
    (forall i : nat, (i <= 6)%nat ->
       nth_error grid (2 * i)
       = Some (create_line 0 (grid_y fl (Z.of_nat i)) (inject_Z chart_w)
                 (grid_y fl (Z.of_nat i)) "#23262e") /\
       nth_error grid (2 * i + 1)
       = Some (create_text (inject_Z (chart_w - 6)) (fl (grid_y fl (Z.of_nat i) + 2))
                 "ne" "#8a8f9a" (PriceLabel (grid_price fl top bot (Z.of_nat i))))) /\
    (forall j : nat, (1 <= j <= 7)%nat ->
       nth_error grid (13 + j)
       = Some (create_line (grid_x fl (Z.of_nat j)) 0 (grid_x fl (Z.of_nat j))
                 (inject_Z chart_h) "#20232b")) /\
    grid_y fl 0 == 0 /\
    (forall i j : Z, (0 <= i <= j)%Z ->
       grid_y fl i <= grid_y fl j /\
       grid_price fl top bot j <= grid_price fl top bot i) /\
    grid_price fl top bot 0 == top /\
    Qabs (grid_price fl top bot GRID_HLINES - bot)
    <= 2 * Qabs (fl (top - bot) - (top - bot)) /\
    ((forall x, fl x == x) ->
     grid_price fl top bot GRID_HLINES == bot /\
     forall i : Z, exists y,
       yfrom chart_h top bot (grid_price (fun x => x) top bot i) = Ok y /\
       y == grid_y (fun x => x) i).
Proof.
  intros R Hne Hwf Hin.
  assert (Hst : step <> 0%Z) by discriminate.
  destruct (compute_window_apart fl chart_w step history Hst Hne Hwf Hin)
    as (win & ah & E & _ & _ & _ & _ & Hspan & _ & _).
  destruct (compute_window_floats fl _ _ _ _ E) as [Ft Fb].
  exists win. split; [ exact E | ]. cbv zeta.
  split; [ apply draw_grid_length | ].
  split; [ intros i Hi; now apply draw_grid_rows | ].
  split; [ intros j Hj; now apply draw_grid_columns | ].
  split; [ apply (grid_y_first fl) | ].
  split.
  { intros i j Hij. split.
    - apply (grid_y_mono fl). lia.
    - apply (grid_price_anti fl); [ lra | exact Hij ]. }
  split; [ now apply (grid_price_first fl) | ].
  split; [ now apply (grid_price_last fl) | ].
  intros Hx. split.
  - pose proof (grid_price_last fl (top_price win) (bot_price win) Fb) as H.
    assert (Z0 : Qabs (fl (top_price win - bot_price win)
                       - (top_price win - bot_price win)) == 0).
    { rewrite Hx. setoid_replace (top_price win - bot_price win
                                  - (top_price win - bot_price win)) with 0 by ring.
      reflexivity. }
    rewrite Z0 in H.
    pose proof (Qabs_nonneg (grid_price fl (top_price win) (bot_price win) GRID_HLINES
                             - bot_price win)) as N.
    assert (A0 : Qabs (grid_price fl (top_price win) (bot_price win) GRID_HLINES
                       - bot_price win) <= 0) by lra.
    apply Qabs_Qle_condition in A0. destruct A0. lra.
  - intros i. assert (Hs : bot_price win < top_price win) by lra.
    exists (row (top_price win) (bot_price win)
              (grid_price (fun x => x) (top_price win) (bot_price win) i)).
    split; [ now apply yfrom_row | ].
    unfold row, grid_price, grid_y, GRID_HLINES. field. lra.
Qed.

Lemma grid_labels_match_the_scale_witness :
  exists win,
    compute_window (fun x => x) chart_w step [flat 100; flat 120; flat 90]
    = Ok (Some win) /\
    List.length (_draw_grid (fun x => x) (top_price win) (bot_price win)) = 21%nat.
Proof.
  destruct (grid_labels_match_the_scale (fun x => x) [flat 100; flat 120; flat 90]
              exact_rounding) as (win & E & H & _).
  - discriminate.
  - repeat constructor; apply flat_well_formed; lra.
  - repeat constructor; apply flat_in_range; try lra; apply Qle_bool_iff; reflexivity.
  - exists win. split; [ exact E | exact H ].
Defined.

